(** * Mortgage calculator: handlers and in-memory cache

    A shallow embedding of [internal/handlers/handlers.go],
    [internal/cache/cache.go] and [pkg/models/models.go], with the
    properties of the service stated and proved over it.

    - Go [int32] values are integers of [Z] with the wrap-around of the
      machine operations written out ([Int32.wrap]).
    - Go [float64] values are IEEE-754 binary64 numbers, taken from the
      standard library's [SpecFloat] (precision 53, [emax] 1024, round to
      nearest even), so the calculator can be evaluated bit for bit.
    - The cache is a finite map from IDs to entries plus the ID counter. *)

From stdpp Require Import gmap strings list fin_maps.
From Stdlib Require Import ZArith Lia Bool.
From Stdlib Require Import Floats.SpecFloat.

Local Open Scope Z_scope.

(** ** Machine integers *)

Module Int32.

Definition min_int : Z := -2147483648.
Definition max_int : Z := 2147483647.
Definition modulus : Z := 4294967296.

(** The values an [int32] variable can hold. *)
Definition in_range (z : Z) : Prop := min_int <= z <= max_int.

Definition in_rangeb (z : Z) : bool := (min_int <=? z) && (z <=? max_int).

(** Two's complement wrap-around of an exact result. *)
Definition wrap (z : Z) : Z := (z - min_int) mod modulus + min_int.

Definition add (a b : Z) : Z := wrap (a + b).
Definition sub (a b : Z) : Z := wrap (a - b).
Definition mul (a b : Z) : Z := wrap (a * b).

End Int32.

(** ** Binary64 floating point and the functions of Go's [math] used *)

Module Float64.

Definition float64 : Type := spec_float.

Definition prec : Z := 53.
Definition emax : Z := 1024.

Definition add : float64 -> float64 -> float64 := SFadd prec emax.
Definition sub : float64 -> float64 -> float64 := SFsub prec emax.
Definition mul : float64 -> float64 -> float64 := SFmul prec emax.
Definition div : float64 -> float64 -> float64 := SFdiv prec emax.
Definition neg : float64 -> float64 := SFopp.

Definition eqb : float64 -> float64 -> bool := SFeqb.
Definition ltb : float64 -> float64 -> bool := SFltb.

(** Conversion of an integer to [float64]: exact below 2^53, which
    covers every [int32] and every untyped integer constant used. *)
Definition of_Z (z : Z) : float64 := binary_normalize prec emax z 0 false.

Definition zero : float64 := S754_zero false.
Definition one : float64 := of_Z 1.
Definition half : float64 := SFldexp prec emax one (-1).
Definition inf (s : bool) : float64 := S754_infinity s.
Definition nan : float64 := S754_nan.

Definition is_nan (x : float64) : bool :=
  match x with S754_nan => true | _ => false end.

Definition signbit (x : float64) : bool :=
  match x with
  | S754_zero s | S754_infinity s | S754_finite s _ _ => s
  | S754_nan => false
  end.

(** The integer [z] with [x = z * 2^e], for a finite [x]. *)
Definition signed_mantissa (s : bool) (m : positive) : Z :=
  if s then Zneg m else Zpos m.

(** [x] rounded toward zero, as an exact integer ([None] for infinities
    and NaN). *)
Definition truncZ (x : float64) : option Z :=
  match x with
  | S754_zero _ => Some 0
  | S754_finite s m e =>
      if 0 <=? e then Some (signed_mantissa s m * 2 ^ e)
      else Some (Z.quot (signed_mantissa s m) (2 ^ (- e)))
  | _ => None
  end.

(** [math.Frexp]: [x = frac * 2^exp] with [1/2 <= |frac| < 1];
    zeros, infinities and NaN are returned with exponent 0. *)
Definition Frexp (x : float64) : float64 * Z :=
  match x with
  | S754_finite _ _ _ => SFfrexp prec emax x
  | _ => (x, 0)
  end.

(** [math.Ldexp]: [frac * 2^exp], rounded once. *)
Definition Ldexp (frac : float64) (exp : Z) : float64 :=
  SFldexp prec emax frac exp.

(** [math.Ceil]: the least integer value greater than or equal to [x];
    zeros, infinities and NaN are returned as they are, and a number in
    (-1, 0) gives the negative zero.  A finite number with a non-negative
    exponent is an integer already; otherwise the integer is computed
    exactly, from the mantissa, and converted back. *)
Definition Ceil (x : float64) : float64 :=
  match x with
  | S754_finite s m e =>
      if 0 <=? e then x
      else
        let c := - ((- signed_mantissa s m) / 2 ^ (- e)) in
        if c =? 0 then S754_zero s else of_Z c
  | _ => x
  end.

(** The loop of [math.Pow] over the bits of the integer exponent:
    [for i := int64(yi); i != 0; i >>= 1].  The bits of the positive
    number [i] are consumed from the least significant one. *)
Definition pow_step (odd : bool) (st : float64 * Z * float64 * Z)
  : float64 * Z * float64 * Z :=
  let '(a1, ae, x1, xe) := st in
  let a1 := if odd then mul a1 x1 else a1 in
  let ae := if odd then ae + xe else ae in
  let x1 := mul x1 x1 in
  let xe := 2 * xe in
  if ltb x1 half then (a1, ae, add x1 x1, xe - 1) else (a1, ae, x1, xe).

Definition pow_overflow (xe : Z) : bool := (xe <? - 4096) || (4096 <? xe).

Fixpoint pow_loop (i : positive) (st : float64 * Z * float64 * Z)
  : float64 * Z :=
  let '(a1, ae, x1, xe) := st in
  if pow_overflow xe then (a1, ae + xe)
  else
    match i with
    | xH => let '(a1, ae, _, _) := pow_step true st in (a1, ae)
    | xI i' => pow_loop i' (pow_step true st)
    | xO i' => pow_loop i' (pow_step false st)
    end.

(** [math.Pow(x, y)] for [x == 0] and a nonzero integer [y]. *)
Definition pow_of_zero (x : float64) (n : Z) : float64 :=
  if n <? 0 then
    if signbit x && Z.odd n then inf true else inf false
  else
    if signbit x && Z.odd n then x else zero.

(** [math.Pow(x, float64(n))] for an integer [n] that [float64]
    represents exactly (every [int32] is one).  The exponent then has no
    fractional part, so the branches of the library for [y == 0.5],
    [y == -0.5], infinite [y] and the [Exp]/[Log] correction never run;
    the remaining branches are followed in the library's order. *)
Definition Pow (x : float64) (n : Z) : float64 :=
  if (n =? 0) || eqb x one then one
  else if n =? 1 then x
  else if is_nan x then nan
  else
    match x with
    | S754_zero _ => pow_of_zero x n
    | S754_infinity true => pow_of_zero (S754_zero true) (- n)
    | S754_infinity false => if n <? 0 then zero else inf false
    | _ =>
        let '(x1, xe) := Frexp x in
        let '(a1, ae) :=
          match Z.abs n with
          | Zpos i => pow_loop i (one, 0, x1, xe)
          | _ => (one, 0)
          end in
        if n <? 0 then Ldexp (div one a1) (- ae) else Ldexp a1 ae
    end.

(** The conversion [int32(x)].  A value with a fractional part is
    truncated toward zero.  When the truncation does not fit in
    [int32], or [x] is an infinity or NaN, the language leaves the
    result to the implementation; the value taken here is the one of the
    amd64 instruction the compiler emits, the most negative integer. *)
Definition to_int32 (x : float64) : Z :=
  match truncZ x with
  | Some t => if Int32.in_rangeb t then t else Int32.min_int
  | None => Int32.min_int
  end.

End Float64.

(** ** [pkg/models]

    The structs keep their field names; where two structs of the package
    share a field name, the fields of the later ones carry a prefix
    ([req] for [ExecuteReqeust], [res] for [Result], [cs] for
    [CacheStorageFormat]). *)

Record Aggregates := {
  LastPaymentDate : string;
  Rate : Z;               (* uint8 *)
  LoanSum : Z;            (* int32 *)
  MonthlyPayment : Z;     (* int32 *)
  Overpayment : Z         (* int32 *)
}.

Record Program := {
  Salary : bool;
  Military : bool;
  Base : bool
}.

Record Params := {
  ObjectCost : Z;         (* int32 *)
  InitialPayment : Z;     (* int32 *)
  Months : Z              (* int32 *)
}.

Record ExecuteReqeust := {
  reqObjectCost : Z;
  reqInitialPayment : Z;
  reqMonths : Z;
  reqProgram : Program
}.

Record Result := {
  resAggregates : Aggregates;
  resParams : Params;
  resProgram : Program
}.

Record ExecuteResponse := { respResult : Result }.

Record CacheStorageFormat := {
  csAggregates : Aggregates;
  csParams : Params;
  csProgram : Program;
  csID : Z                (* int32 *)
}.

(** ** [internal/handlers]: the pure functions *)

Import Float64.

(** [monthlyPaymentCalculator]. *)
Definition monthlyRate_of (loanRate : float64) : float64 :=
  div loanRate (of_Z (100 * 12)).

Definition factor_of (loanRate : float64) (months : Z) : float64 :=
  Pow (add one (monthlyRate_of loanRate)) months.

Definition monthlyPayment_float (objectCost loanRate : float64) (months : Z)
  : float64 :=
  let monthlyRate := monthlyRate_of loanRate in
  let factor := factor_of loanRate months in
  Ceil (div (mul objectCost (mul monthlyRate factor)) (sub factor one)).

Definition overpayment_float (objectCost : float64) (monthlyPayment months : Z)
  : float64 :=
  Ceil (sub (mul (of_Z monthlyPayment) (of_Z months)) objectCost).

Definition monthlyPaymentCalculator (objectCost loanRate : float64) (months : Z)
  : Z * Z :=
  let monthlyPayment := to_int32 (monthlyPayment_float objectCost loanRate months) in
  let overpayment := to_int32 (overpayment_float objectCost monthlyPayment months) in
  (monthlyPayment, overpayment).

(** Errors of [pkg/errors] returned by the program validator. *)
Inductive ValidationError :=
  | ErrNoTrueValues
  | ErrMoreThanOneTrue.

(** [programValidator]: the returned pair is Go's [(string, error)], with
    [None] for a nil error. *)
Definition programValidator (data : ExecuteReqeust)
  : string * option ValidationError :=
  let p := reqProgram data in
  let countTrue := 0 in
  let lastTrueField := ""%string in
  let '(countTrue, lastTrueField) :=
    if Base p then (countTrue + 1, "base"%string)
    else (countTrue, lastTrueField) in
  let '(countTrue, lastTrueField) :=
    if Military p then (countTrue + 1, "military"%string)
    else (countTrue, lastTrueField) in
  let '(countTrue, lastTrueField) :=
    if Salary p then (countTrue + 1, "salary"%string)
    else (countTrue, lastTrueField) in
  let hasAnyField := Base p || Military p || Salary p in
  if negb hasAnyField then (""%string, Some ErrNoTrueValues)
  else if countTrue =? 0 then (""%string, Some ErrNoTrueValues)
  else if 1 <? countTrue then (""%string, Some ErrMoreThanOneTrue)
  else (lastTrueField, None).

(** [initialPaymentValidator]; both arguments are [int32], and so is the
    product [initialPayment*5]. *)
Definition initialPaymentValidator (objectCost initialPayment : Z) : bool :=
  if objectCost <? initialPayment then false
  else if (objectCost =? 0) && (initialPayment =? 0) then false
  else if initialPayment =? 0 then false
  else if Int32.mul initialPayment 5 <? objectCost then false
  else true.

(** [getLoanRateAndProgram]. *)
Definition emptyProgram : Program :=
  {| Salary := false; Military := false; Base := false |}.

Definition getLoanRateAndProgram (loanProgram : string) : Z * Program :=
  if String.eqb loanProgram "base" then
    (10, {| Salary := false; Military := false; Base := true |})
  else if String.eqb loanProgram "military" then
    (9, {| Salary := false; Military := true; Base := false |})
  else if String.eqb loanProgram "salary" then
    (8, {| Salary := true; Military := false; Base := false |})
  else (0, emptyProgram).

(** ** Calendar dates: what [time.Now().AddDate(0, n, 0).Format(layout)]
    does to the date part of the current time.  The current time is an
    input of the model. *)

Module Time.

Record Date := { year : Z; month : Z; day : Z }.

Definition isLeap (y : Z) : bool :=
  (Z.rem y 4 =? 0) && (negb (Z.rem y 100 =? 0) || (Z.rem y 400 =? 0)).

Definition daysIn (m y : Z) : Z :=
  if m =? 2 then (if isLeap y then 29 else 28)
  else if (m =? 4) || (m =? 6) || (m =? 9) || (m =? 11) then 30
  else 31.

Definition valid_date (d : Date) : bool :=
  (1 <=? month d) && (month d <=? 12) &&
  (1 <=? day d) && (day d <=? daysIn (month d) (year d)).

(** [AddDate(0, months, 0)]: the month count is added to the month and
    the result is normalised, first the month into the year, then a day
    past the end of the month into the following month (for the day of
    a valid date one step is enough: February 31 is March 3 or 2). *)
Definition AddDate_months (t : Date) (months : Z) : Date :=
  let m0 := month t - 1 + months in
  let y := year t + m0 / 12 in
  let m := m0 mod 12 + 1 in
  if day t <=? daysIn m y then {| year := y; month := m; day := day t |}
  else {| year := y; month := m + 1; day := day t - daysIn m y |}.

Definition digit (n : Z) : string :=
  String (Ascii.ascii_of_N (48 + Z.to_N n)) EmptyString.

(** Decimal digits of a natural number, most significant first. *)
Fixpoint digits (fuel : nat) (n : Z) : string :=
  match fuel with
  | O => EmptyString
  | S fuel' =>
      if n <? 10 then digit n
      else String.append (digits fuel' (n / 10)) (digit (n mod 10))
  end.

Fixpoint zeros (k : nat) : string :=
  match k with
  | O => EmptyString
  | S k' => String.append "0" (zeros k')
  end.

(** [appendInt(b, x, width)]: sign, then the digits padded with zeros
    on the left up to [width]. *)
Definition appendInt (x : Z) (width : nat) : string :=
  let u := Z.abs x in
  let ds := digits (S (Z.to_nat (Z.log2 u))) u in
  let body := String.append (zeros (width - String.length ds)) ds in
  if x <? 0 then String.append "-" body else body.

(** The elements of a layout that the handler and its test use. *)
Inductive chunk :=
  | stdLongYear          (* "2006" *)
  | stdZeroMonth         (* "01" *)
  | stdZeroDay           (* "02" *)
  | literal (s : string).

Definition format_chunk (t : Date) (c : chunk) : string :=
  match c with
  | stdLongYear => appendInt (year t) 4
  | stdZeroMonth => appendInt (month t) 2
  | stdZeroDay => appendInt (day t) 2
  | literal s => s
  end.

Definition Format (t : Date) (layout : list chunk) : string :=
  fold_right (fun c acc => String.append (format_chunk t c) acc)
             EmptyString layout.

(** The layout string ["2006-01-01"] of [prepareResponse]: the reference
    month ["01"] stands in both the second and the third field. *)
Definition layout_2006_01_01 : list chunk :=
  [stdLongYear; literal "-"; stdZeroMonth; literal "-"; stdZeroMonth].

(** The layout string ["2006-01-02"] of the handler's test: year, month
    and day of the month. *)
Definition layout_2006_01_02 : list chunk :=
  [stdLongYear; literal "-"; stdZeroMonth; literal "-"; stdZeroDay].

End Time.

(** [prepareResponse], with the current date passed in. *)
Definition prepareResponse (now : Time.Date) (reqData : ExecuteReqeust)
    (program : Program) (rate monthlyPayment overpayment : Z)
  : ExecuteResponse :=
  let lastDate :=
    Time.Format (Time.AddDate_months now (reqMonths reqData))
                Time.layout_2006_01_01 in
  {| respResult :=
       {| resParams :=
            {| ObjectCost := reqObjectCost reqData;
               InitialPayment := reqInitialPayment reqData;
               Months := reqMonths reqData |};
          resProgram := program;
          resAggregates :=
            {| Rate := rate;
               LoanSum := Int32.sub (reqObjectCost reqData)
                                    (reqInitialPayment reqData);
               MonthlyPayment := monthlyPayment;
               Overpayment := overpayment;
               LastPaymentDate := lastDate |} |} |}.

(** ** [internal/cache] *)

(** [Storage]: the map [str] and the counter [IDCounter].  The mutex has
    no state of its own in a sequential run; the interleavings of
    concurrent calls are modelled below ([Concurrent]). *)
Record Storage := {
  str : gmap Z CacheStorageFormat;
  IDCounter : Z                       (* int32 *)
}.

Definition New : Storage := {| str := ∅; IDCounter := 0 |}.

Definition cacheData_of (id : Z) (value : Result) : CacheStorageFormat :=
  {| csID := id;
     csParams := resParams value;
     csProgram := resProgram value;
     csAggregates := resAggregates value |}.

(** [Load]: the ID is the counter read before the increment; the result
    of [MarshalJSON] is dropped by the source and has no effect. *)
Definition Load (value : Result) (s : Storage) : Storage :=
  let id := IDCounter s in
  {| str := <[id := cacheData_of id value]> (str s);
     IDCounter := Int32.add (IDCounter s) 1 |}.

(** [ReadAll] copies the values of the map into a new slice, in the
    iteration order of the map, which Go leaves unspecified: any
    arrangement of the values is a possible result. *)
Definition ReadAll_canonical (s : Storage) : list CacheStorageFormat :=
  (map_to_list (str s)).*2.

Definition ReadAll (s : Storage) (out : list CacheStorageFormat) : Prop :=
  out ≡ₚ ReadAll_canonical s.

(** [HasData]: [len(s.str) != 0]. *)
Definition HasData (s : Storage) : bool :=
  negb (Nat.eqb (size (str s)) 0).

(** A run of sequential [Load] calls, one per element, left to right. *)
Definition load_all (values : list Result) (s : Storage) : Storage :=
  foldl (fun acc v => Load v acc) s values.

(** ** Concurrent [Load] calls

    A call runs three steps that other goroutines can interleave with:
    the atomic read of the counter, the atomic increment, and the critical
    section under the mutex, which stores the entry. *)

Module Concurrent.

Inductive pc :=
  | AtRead                      (* before [atomic.LoadInt32] *)
  | AtIncrement (id : Z)        (* before [atomic.AddInt32] *)
  | AtStore (id : Z)            (* before [s.mu.Lock()] ... [s.str[id] = cacheData] *)
  | Returned (id : Z).

Record goroutine := { value : Result; point : pc }.

Definition call (v : Result) : goroutine := {| value := v; point := AtRead |}.

Definition finished (g : goroutine) : bool :=
  match point g with Returned _ => true | _ => false end.

(** The ID a finished call stored its entry under. *)
Definition assigned (g : goroutine) : option Z :=
  match point g with Returned id => Some id | _ => None end.

Definition step (g : goroutine) (s : Storage) : goroutine * Storage :=
  match point g with
  | AtRead =>
      ({| value := value g; point := AtIncrement (IDCounter s) |}, s)
  | AtIncrement id =>
      ({| value := value g; point := AtStore id |},
       {| str := str s; IDCounter := Int32.add (IDCounter s) 1 |})
  | AtStore id =>
      ({| value := value g; point := Returned id |},
       {| str := <[id := cacheData_of id (value g)]> (str s);
          IDCounter := IDCounter s |})
  | Returned _ => (g, s)
  end.

(** A configuration: the goroutines inside [Load] and the shared store.
    The scheduler picks the goroutine that takes the next step. *)
Definition config : Type := list goroutine * Storage.

Definition schedule_step (c : config) (i : nat) : config :=
  match c.1 !! i with
  | Some g => let '(g', s') := step g c.2 in (<[i := g']> c.1, s')
  | None => c
  end.

Definition run (schedule : list nat) (c : config) : config :=
  foldl schedule_step c schedule.

Definition start (values : list Result) (s : Storage) : config :=
  (call <$> values, s).

Definition all_finished (c : config) : bool := forallb finished c.1.

(** The schedule in which every goroutine takes its first step, then
    every goroutine its second, then every goroutine its third. *)
Definition lockstep (n : nat) : list nat :=
  seq 0 n ++ seq 0 n ++ seq 0 n.

(** One step of every goroutine of a list, from the first to the last. *)
Fixpoint round (gs : list goroutine) (s : Storage) : list goroutine * Storage :=
  match gs with
  | [] => ([], s)
  | g :: gs' =>
      let '(g', s') := step g s in
      let '(gs'', s'') := round gs' s' in
      (g' :: gs'', s'')
  end.

End Concurrent.

(** ** [Execute] and [Cache]

    The transport is reduced to what the handlers look at: the method and
    the decoded body ([None] when decoding fails), and what they write:
    the status code (when [WriteHeader] is called) and the encoded value. *)

Record HttpRequest := {
  Method : string;
  DecodedBody : option ExecuteReqeust
}.

Inductive Payload :=
  | ErrorMessage (Error : string)
  | ExecutePayload (resp : ExecuteResponse)
  | CachePayload (data : list CacheStorageFormat).

Record HttpResponse := {
  StatusCode : option Z;
  Written : option Payload
}.

Definition StatusOK : Z := 200.
Definition StatusBadRequest : Z := 400.
Definition StatusMethodNotAllowed : Z := 405.

(** The two steps of [Execute] after validation, recorded in order as
    they run. *)
Inductive Event :=
  | Calculated (objectCost loanRate : float64) (months : Z)
  | Loaded (value : Result).

Record Outcome := {
  response : HttpResponse;
  store : Storage;
  events : list Event
}.

Definition reply (code : Z) (p : Payload) (s : Storage) : Outcome :=
  {| response := {| StatusCode := Some code; Written := Some p |};
     store := s; events := [] |}.

Definition programValidatorErrorHandler (err : ValidationError) : Payload :=
  match err with
  | ErrNoTrueValues => ErrorMessage "choose program"
  | ErrMoreThanOneTrue => ErrorMessage "choose only 1 program"
  end.

Definition Execute (now : Time.Date) (s : Storage) (r : HttpRequest) : Outcome :=
  if negb (String.eqb (Method r) "POST") then
    reply StatusMethodNotAllowed (ErrorMessage "only post method allowed") s
  else
    match DecodedBody r with
    | None =>
        {| response := {| StatusCode := None; Written := None |};
           store := s; events := [] |}
    | Some reqData =>
        if negb (initialPaymentValidator (reqObjectCost reqData)
                                         (reqInitialPayment reqData)) then
          reply StatusBadRequest
                (ErrorMessage "the initial payment should be more") s
        else
          match programValidator reqData with
          | (_, Some err) =>
              reply StatusBadRequest (programValidatorErrorHandler err) s
          | (loanProgram, None) =>
              let '(rate, program) := getLoanRateAndProgram loanProgram in
              let objectCost :=
                of_Z (Int32.sub (reqObjectCost reqData)
                                (reqInitialPayment reqData)) in
              let '(monthlyPayment, overpayment) :=
                monthlyPaymentCalculator objectCost (of_Z rate)
                                         (reqMonths reqData) in
              let resp :=
                prepareResponse now reqData program rate
                                monthlyPayment overpayment in
              {| response := {| StatusCode := Some StatusOK;
                                Written := Some (ExecutePayload resp) |};
                 store := Load (respResult resp) s;
                 events := [Calculated objectCost (of_Z rate)
                                       (reqMonths reqData);
                            Loaded (respResult resp)] |}
          end
    end.

Definition Cache (s : Storage) (method : string)
    (out : list CacheStorageFormat) : HttpResponse :=
  if negb (String.eqb method "GET") then
    {| StatusCode := Some StatusMethodNotAllowed;
       Written := Some (ErrorMessage "only get method allowed") |}
  else if negb (HasData s) then
    {| StatusCode := Some StatusBadRequest;
       Written := Some (ErrorMessage "empty cache") |}
  else
    {| StatusCode := Some StatusOK; Written := Some (CachePayload out) |}.

(** ** [internal/middleware]

    The wrapper around the response writer and the status code that
    [RequestInfoMiddleware] logs; the duration it logs beside the code is
    a reading of the clock and is left out. *)

Module Middleware.

(** [responseWriterWrapper]: the wrapped writer is reduced to the status
    it has been sent ([None] before any header is written; the writer of
    [net/http] keeps the first code it is given), [statusCode] is the
    field of the wrapper. *)
Record responseWriterWrapper := {
  ResponseWriter : option Z;
  statusCode : Z
}.

(** [WriteHeader]: the code is stored in the wrapper and passed on. *)
Definition WriteHeader (code : Z) (rw : responseWriterWrapper)
  : responseWriterWrapper :=
  {| ResponseWriter :=
       match ResponseWriter rw with
       | None => Some code
       | Some first => Some first
       end;
     statusCode := code |}.

(** What a handler of this service does to the writer's header: it calls
    [WriteHeader] once with the status of its answer, or not at all when
    it returns without answering. *)
Definition write_status (answer : HttpResponse) (rw : responseWriterWrapper)
  : responseWriterWrapper :=
  match StatusCode answer with
  | Some code => WriteHeader code rw
  | None => rw
  end.

(** [RequestInfoMiddleware]: the handler runs on a wrapper whose
    [statusCode] starts as 200, and the [statusCode] found afterwards is
    logged.  The result is the wrapper after the handler; its
    [statusCode] is the logged code. *)
Definition RequestInfoMiddleware
    (next : responseWriterWrapper -> responseWriterWrapper)
  : responseWriterWrapper :=
  next {| ResponseWriter := None; statusCode := StatusOK |}.

End Middleware.

(** ** Vocabulary of the properties *)

Import Concurrent.


(** [is_ceiling x a]: the integer [a] is the ceiling of the number that
    the float [x] stands for, in exact arithmetic: [x] is finite, with
    mantissa [z] and exponent [e], and [a - 1 < z * 2^e <= a]. *)
Definition is_ceiling (x : float64) (a : Z) : bool :=
  match x with
  | S754_zero _ => a =? 0
  | S754_finite s m e =>
      let z := signed_mantissa s m in
      if 0 <=? e then a =? z * 2 ^ e
      else ((a - 1) * 2 ^ (- e) <? z) && (z <=? a * 2 ^ (- e))
  | _ => false
  end.

(** The number of program flags of a request that are set. *)
Definition selected_count (p : Program) : nat :=
  length (filter (fun b : bool => b = true) [Base p; Military p; Salary p]).

(** A POST request whose body decoded to [reqData]. *)
Definition post (reqData : ExecuteReqeust) : HttpRequest :=
  {| Method := "POST"; DecodedBody := Some reqData |}.

(** The result [Execute] assembles for a request that passed both
    validators with the program name [loanProgram]. *)
Definition assembled (now : Time.Date) (reqData : ExecuteReqeust)
    (loanProgram : string) : ExecuteResponse :=
  let rate := fst (getLoanRateAndProgram loanProgram) in
  let program := snd (getLoanRateAndProgram loanProgram) in
  let objectCost :=
    of_Z (Int32.sub (reqObjectCost reqData) (reqInitialPayment reqData)) in
  let mo := monthlyPaymentCalculator objectCost (of_Z rate) (reqMonths reqData) in
  prepareResponse now reqData program rate (fst mo) (snd mo).

(** The request of the end-to-end example. *)
Definition example_request : ExecuteReqeust :=
  {| reqObjectCost := 100000; reqInitialPayment := 20000; reqMonths := 12;
     reqProgram := {| Salary := false; Military := false; Base := true |} |}.

(** The date string as documented (the README shows ["2044-02-18"]):
    year, month and day of the month
    of the date [months] calendar months after [now]. *)
Definition iso_date_after (now : Time.Date) (months : Z) : string :=
  Time.Format (Time.AddDate_months now months) Time.layout_2006_01_02.

(** IDs follow the order of insertion: the value inserted at position [i]
    is stored under the ID [i], and the store has no entry besides these,
    so that the IDs are the numbers 0, 1, ..., N-1, distinct and
    increasing with the position. *)
Definition ids_follow_insertion (values : list Result) (s : Storage) : Prop :=
  (forall (i : nat) v,
      values !! i = Some v ->
      str s !! Z.of_nat i = Some (cacheData_of (Z.of_nat i) v))
  /\ (forall k e,
        str s !! k = Some e ->
        csID e = k /\ 0 <= k < Z.of_nat (length values)).

(** A result to insert in the examples. *)
Definition sample_result : Result :=
  {| resAggregates :=
       {| LastPaymentDate := "2025-02-02"; Rate := 10; LoanSum := 80000;
          MonthlyPayment := 7034; Overpayment := 4408 |};
     resParams :=
       {| ObjectCost := 100000; InitialPayment := 20000; Months := 12 |};
     resProgram := {| Salary := false; Military := false; Base := true |} |}.

(** The rate of the program whose flag is set, in the order in which
    [programValidator] looks at the flags (a later flag overrides). *)
Definition rate_of_flags (p : Program) : Z :=
  if Salary p then 8 else if Military p then 9 else if Base p then 10 else 0.

(** Every entry of the store is filed under its own ID. *)
Definition keyed_by_id (s : Storage) : Prop :=
  forall k e, str s !! k = Some e -> csID e = k.

(** A goroutine that has incremented the counter. *)
Definition incremented (g : goroutine) : bool :=
  match point g with
  | AtStore _ | Returned _ => true
  | AtRead | AtIncrement _ => false
  end.

(** The number of elements of a list that pass a test. *)
Definition countb {A : Type} (f : A -> bool) (l : list A) : nat :=
  length (List.filter f l).

(** The schedule in which every goroutine runs its three steps before the
    next one starts. *)
Definition serial (n : nat) : list nat :=
  flat_map (fun i => [i; i; i]%list) (seq 0 n).

(** What holds of the goroutines and the store at every point of every
    run of concurrent [Load] calls with the arguments [values] on a fresh
    store. *)
Definition load_invariant (values : list Result) (c : config) : Prop :=
  value <$> c.1 = values
  /\ keyed_by_id c.2
  /\ IDCounter c.2 = Int32.wrap (Z.of_nat (countb incremented c.1))
  /\ (size (str c.2) <= countb finished c.1)%nat
  /\ (0 < countb finished c.1 -> 0 < size (str c.2))%nat
  /\ (forall k e,
        str c.2 !! k = Some e ->
        exists v, v ∈ values /\ e = cacheData_of k v).

(** The goroutines after the [serial] schedule: each has returned with
    the ID that the sequential run gave it. *)
Fixpoint returned_serial (values : list Result) (s : Storage)
  : list goroutine :=
  match values with
  | [] => []
  | v :: values' =>
      {| value := v; point := Returned (IDCounter s) |}
        :: returned_serial values' (Load v s)
  end.

(** The mantissa [m] shifted left by [k] binary digits. *)
Definition shiftp (m : positive) (k : Z) : positive :=
  match k with
  | Zpos p => Pos.iter xO m p
  | _ => m
  end.

(** The float of sign [s] that stands for the integer [m], with its 53
    digit mantissa. *)
Definition canon (s : bool) (m : positive) : float64 :=
  S754_finite s (shiftp m (53 - Zpos (digits2_pos m)))
              (Zpos (digits2_pos m) - 53).

(** [x] stands for the integer [z], a zero of either sign for 0. *)
Definition exact_int (x : float64) (z : Z) : Prop :=
  match z with
  | Z0 => exists s, x = S754_zero s
  | Zpos m => x = canon false m
  | Zneg m => x = canon true m
  end.

(** * Properties *)

(** ** Machine integers *)

Lemma Int32_wrap_in_range (z : Z) : Int32.in_range (Int32.wrap z).
Proof.
  unfold Int32.in_range, Int32.wrap, Int32.min_int, Int32.max_int, Int32.modulus.
  pose proof (Z.mod_pos_bound (z - -2147483648) 4294967296 eq_refl). lia.
Qed.

Lemma Int32_wrap_id (z : Z) : Int32.in_range z -> Int32.wrap z = z.
Proof.
  unfold Int32.in_range, Int32.wrap, Int32.min_int, Int32.max_int, Int32.modulus.
  intros Hz. rewrite Z.mod_small; lia.
Qed.

Lemma Int32_in_rangeb_true (z : Z) : Int32.in_rangeb z = true <-> Int32.in_range z.
Proof.
  unfold Int32.in_rangeb, Int32.in_range.
  rewrite andb_true_iff, !Z.leb_le. tauto.
Qed.

Lemma Int32_wrap_add_l (a b : Z) :
  Int32.wrap (Int32.wrap a + b) = Int32.wrap (a + b).
Proof.
  unfold Int32.wrap.
  replace ((a - Int32.min_int) mod Int32.modulus + Int32.min_int + b
           - Int32.min_int)
    with ((a - Int32.min_int) mod Int32.modulus + b) by ring.
  rewrite Zplus_mod_idemp_l.
  replace (a - Int32.min_int + b) with (a + b - Int32.min_int) by ring.
  reflexivity.
Qed.

(** ** Validators *)



(** Where the product [5 * initialPayment] fits in [int32], the validator
    accepts exactly the positive payments of at least a fifth of the cost
    and at most the cost. *)
Lemma initialPaymentValidator_exact (objectCost initialPayment : Z) :
  Int32.in_range (initialPayment * 5) ->
  initialPaymentValidator objectCost initialPayment = true <->
  (initialPayment <= objectCost /\ initialPayment <> 0
   /\ objectCost <= 5 * initialPayment).
Proof.
  intros Hr. unfold initialPaymentValidator, Int32.mul.
  rewrite (Int32_wrap_id _ Hr).
  destruct (Z.ltb_spec objectCost initialPayment);
    destruct (Z.eqb_spec objectCost 0);
    destruct (Z.eqb_spec initialPayment 0);
    destruct (Z.ltb_spec (initialPayment * 5) objectCost); simpl;
    split; intros; try discriminate; try reflexivity; lia.
Qed.

(** C9: there are inputs with [0 < initialPayment <= objectCost] and
    [5 * initialPayment >= objectCost] over the integers that the validator
    rejects, object cost 2000000000 with initial payment 500000000 among
    them: the [int32] product wraps around to a negative number. *)
Theorem initialPaymentValidator_overflow :
  exists objectCost initialPayment,
    Int32.in_range objectCost /\ Int32.in_range initialPayment
    /\ objectCost = 2000000000 /\ initialPayment = 500000000
    /\ 0 < initialPayment <= objectCost
    /\ 5 * initialPayment >= objectCost
    /\ Int32.mul initialPayment 5 = -1794967296
    /\ Int32.mul initialPayment 5 <> initialPayment * 5
    /\ initialPaymentValidator objectCost initialPayment = false.
Proof.
  exists 2000000000, 500000000.
  unfold Int32.in_range, Int32.min_int, Int32.max_int.
  repeat split; try lia; try reflexivity; vm_compute; congruence.
Qed.

(** The three outcomes of [programValidator], by the number of flags set. *)
Lemma programValidator_cases (data : ExecuteReqeust) :
  (selected_count (reqProgram data) = 0%nat
   /\ programValidator data = (""%string, Some ErrNoTrueValues))
  \/ ((1 < selected_count (reqProgram data))%nat
      /\ programValidator data = (""%string, Some ErrMoreThanOneTrue))
  \/ (selected_count (reqProgram data) = 1%nat
      /\ snd (programValidator data) = None).
Proof.
  destruct data as [oc ip mo [[] [] []]];
    first [ left; split; vm_compute; reflexivity
          | right; left; split; vm_compute; first [reflexivity | lia]
          | right; right; split; vm_compute; reflexivity ].
Qed.

(** C6: [programValidator] fails with [ErrNoTrueValues] exactly when none
    of the flags base, military, salary is set, fails with
    [ErrMoreThanOneTrue] exactly when more than one is set, and with
    exactly one flag set returns the name of that flag and no error. *)
Theorem programValidator_spec (data : ExecuteReqeust) :
  (snd (programValidator data) = Some ErrNoTrueValues
   <-> selected_count (reqProgram data) = 0%nat)
  /\ (snd (programValidator data) = Some ErrMoreThanOneTrue
      <-> (1 < selected_count (reqProgram data))%nat)
  /\ (selected_count (reqProgram data) = 1%nat ->
      snd (programValidator data) = None
      /\ (Base (reqProgram data) = true ->
          fst (programValidator data) = "base"%string)
      /\ (Military (reqProgram data) = true ->
          fst (programValidator data) = "military"%string)
      /\ (Salary (reqProgram data) = true ->
          fst (programValidator data) = "salary"%string)).
Proof.
  destruct data as [oc ip mo [sal mil bas]].
  unfold programValidator, selected_count; simpl.
  destruct sal, mil, bas; simpl;
    repeat split; intros; try discriminate; try reflexivity; try lia.
Qed.

Lemma programValidator_spec_witness :
  programValidator
    {| reqObjectCost := 100000; reqInitialPayment := 20000; reqMonths := 12;
       reqProgram := {| Salary := false; Military := true; Base := false |} |}
  = ("military"%string, None).
Proof.
  pose proof (programValidator_spec
    {| reqObjectCost := 100000; reqInitialPayment := 20000; reqMonths := 12;
       reqProgram := {| Salary := false; Military := true; Base := false |} |})
    as (_ & _ & H).
  destruct (H eq_refl) as (Herr & _ & Hname & _).
  specialize (Hname eq_refl).
  apply injective_projections; [exact Hname | exact Herr].
Defined.

(** ** Floating point *)

Lemma digits2_pos_lower (m : positive) :
  2 ^ (Zpos (digits2_pos m) - 1) <= Zpos m.
Proof.
  induction m as [m IH | m IH |]; cbn [digits2_pos].
  - rewrite Pos2Z.inj_succ. replace (Z.succ (Zpos (digits2_pos m)) - 1) with (Z.succ (Zpos (digits2_pos m) - 1)) by lia.
    rewrite Z.pow_succ_r by lia. lia.
  - rewrite Pos2Z.inj_succ. replace (Z.succ (Zpos (digits2_pos m)) - 1) with (Z.succ (Zpos (digits2_pos m) - 1)) by lia.
    rewrite Z.pow_succ_r by lia. lia.
  - reflexivity.
Qed.

Lemma digits2_pos_upper (m : positive) :
  Zpos m < 2 ^ Zpos (digits2_pos m).
Proof.
  induction m as [m IH | m IH |]; cbn [digits2_pos].
  - rewrite Pos2Z.inj_succ, Z.pow_succ_r by lia. lia.
  - rewrite Pos2Z.inj_succ, Z.pow_succ_r by lia. lia.
  - reflexivity.
Qed.

Lemma iter_xO_value (k m : positive) :
  Zpos (Pos.iter xO m k) = Zpos m * 2 ^ Zpos k.
Proof.
  induction k as [| k IH] using Pos.peano_ind.
  - cbn. lia.
  - rewrite Pos.iter_succ, Pos2Z.inj_xO, IH, Pos2Z.inj_succ.
    rewrite Z.pow_succ_r by lia. ring.
Qed.

Lemma iter_xO_digits (k m : positive) :
  digits2_pos (Pos.iter xO m k) = (digits2_pos m + k)%positive.
Proof.
  induction k as [| k IH] using Pos.peano_ind.
  - cbn. lia.
  - rewrite Pos.iter_succ. cbn [digits2_pos]. rewrite IH. lia.
Qed.

(** Rounding leaves a mantissa of 53 digits with an exponent in range as
    it is. *)
Lemma binary_round_aux_canonical (s : bool) (mz : positive) (ez : Z) :
  Zpos (digits2_pos mz) = 53 ->
  -1074 <= ez <= 971 ->
  binary_round_aux prec emax s (Zpos mz) ez loc_Exact = S754_finite s mz ez.
Proof.
  intros Hd He.
  assert (Hf : fexp prec emax (Zdigits2 (Zpos mz) + ez) - ez = 0).
  { unfold fexp, emin, prec, emax. cbn [Zdigits2]. rewrite Hd. lia. }
  unfold binary_round_aux, shr_fexp.
  rewrite Hf. cbn [shr shr_record_of_loc shr_m loc_of_shr_record
                  round_nearest_even].
  rewrite Hf. cbn [shr shr_m].
  replace (ez <=? emax - prec) with true
    by (symmetry; apply Z.leb_le; unfold emax, prec; lia).
  reflexivity.
Qed.

(** The float of a nonzero integer below 2^53 in absolute value. *)
Lemma of_Z_pos (s : bool) (m : positive) :
  Zpos m < 2 ^ 53 ->
  binary_round prec emax s m 0
  = match 53 - Zpos (digits2_pos m) with
    | Zpos k => S754_finite s (Pos.iter xO m k) (- Zpos k)
    | _ => S754_finite s m 0
    end.
Proof.
  intros Hm.
  pose proof (digits2_pos_lower m) as Hlo.
  assert (Hd : Zpos (digits2_pos m) <= 53).
  { destruct (Z.le_gt_cases (Zpos (digits2_pos m)) 53) as [H | H]; [exact H |].
    exfalso.
    assert (2 ^ 53 <= 2 ^ (Zpos (digits2_pos m) - 1))
      by (apply Z.pow_le_mono_r; lia).
    lia. }
  unfold binary_round, shl_align.
  assert (Hf : fexp prec emax (Zpos (digits2_pos m) + 0)
               = Zpos (digits2_pos m) - 53).
  { unfold fexp, emin, prec, emax. lia. }
  rewrite Hf, Z.sub_0_r.
  destruct (53 - Zpos (digits2_pos m)) as [| k | k] eqn:Hk; try lia.
  - replace (Zpos (digits2_pos m) - 53) with 0 by lia.
    apply binary_round_aux_canonical; lia.
  - replace (Zpos (digits2_pos m) - 53) with (Zneg k) by lia.
    apply binary_round_aux_canonical.
    + rewrite iter_xO_digits. lia.
    + lia.
Qed.

Lemma truncZ_of_Z (c : Z) : Z.abs c < 2 ^ 53 -> truncZ (of_Z c) = Some c.
Proof.
  intros Hc. destruct c as [| m | m]; [reflexivity | |];
    unfold of_Z, binary_normalize; rewrite of_Z_pos by (cbn in Hc; lia);
    destruct (53 - Zpos (digits2_pos m)) as [| k | k]; cbn [truncZ Z.leb Z.compare signed_mantissa];
    try (f_equal; lia).
  - cbn [Z.opp]. rewrite iter_xO_value. rewrite Z.quot_mul; [reflexivity |]. 
    apply Z.pow_nonzero; lia.
  - cbn [Z.opp]. change (Z.neg (Pos.iter xO m k)) with (- Zpos (Pos.iter xO m k)).
    rewrite iter_xO_value, <- Z.mul_opp_l. rewrite Z.quot_mul; [reflexivity |].
    apply Z.pow_nonzero; lia.
Qed.

(** [math.Ceil] returns the ceiling, as a float that stands for exactly
    that integer. *)
Lemma Ceil_is_ceiling (x : float64) (a : Z) :
  is_ceiling x a = true -> Z.abs a < 2 ^ 53 -> truncZ (Ceil x) = Some a.
Proof.
  intros Hx Ha. destruct x as [s | s | | s m e]; try discriminate.
  - cbn in Hx |- *. apply Z.eqb_eq in Hx. subst a. reflexivity.
  - unfold is_ceiling in Hx. unfold Ceil.
    destruct (Z.leb_spec 0 e) as [He | He].
    + apply Z.eqb_eq in Hx. subst a. cbn [truncZ].
      destruct (Z.leb_spec 0 e); [reflexivity | lia].
    + apply andb_true_iff in Hx as [Hlo Hhi].
      apply Z.ltb_lt in Hlo. apply Z.leb_le in Hhi.
      assert (Hk : 0 < 2 ^ (- e)) by (apply Z.pow_pos_nonneg; lia).
      assert (Hc : - ((- signed_mantissa s m) / 2 ^ (- e)) = a).
      { assert ((- signed_mantissa s m) / 2 ^ (- e) = - a); [| lia].
        symmetry. apply Z.div_unique with
          (r := - signed_mantissa s m - (- a) * 2 ^ (- e)); [| ring].
        left. lia. }
      rewrite Hc. destruct (Z.eqb_spec a 0) as [-> | Hne].
      * reflexivity.
      * apply truncZ_of_Z. exact Ha.
Qed.

(** ** The annuity calculator *)

(** The conversion to [int32] is the identity on integral values that
    fit. *)
Lemma to_int32_in_range (x : float64) (z : Z) :
  truncZ x = Some z -> Int32.in_range z -> to_int32 x = z.
Proof.
  intros Hx Hz. unfold to_int32. rewrite Hx.
  apply Int32_in_rangeb_true in Hz. rewrite Hz. reflexivity.
Qed.

Lemma to_int32_is_int32 (x : float64) : Int32.in_range (to_int32 x).
Proof.
  unfold to_int32.
  destruct (truncZ x) as [t |]; [| vm_compute; split; discriminate].
  destruct (Int32.in_rangeb t) eqn:Ht.
  - apply Int32_in_rangeb_true. exact Ht.
  - vm_compute; split; discriminate.
Qed.

(** [math.Ceil] on a few values: 7/2, -7/2, -1/2 (a negative zero), 3. *)
Example Ceil_values :
  Ceil (div (of_Z 7) (of_Z 2)) = of_Z 4
  /\ Ceil (div (of_Z (-7)) (of_Z 2)) = of_Z (-3)
  /\ Ceil (neg half) = S754_zero true
  /\ Ceil (of_Z 3) = of_Z 3
  /\ Ceil (inf false) = inf false
  /\ Ceil nan = nan.
Proof. repeat split; vm_compute; reflexivity. Qed.

(** The table of [TestMonthlyPaymentCalculator]. *)
Example monthlyPaymentCalculator_test_table :
  monthlyPaymentCalculator (of_Z 100000) (of_Z 10) 12 = (8792, 5504)
  /\ monthlyPaymentCalculator (of_Z 50000) (of_Z 5) 6 = (8456, 736)
  /\ monthlyPaymentCalculator (of_Z 200000) (div (of_Z 15) (of_Z 2)) 240
     = (1612, 186880)
  /\ monthlyPaymentCalculator (of_Z 1000) (of_Z 5) 12 = (86, 32)
  /\ monthlyPaymentCalculator (of_Z 100000) (of_Z 20) 12 = (9264, 11168)
  /\ monthlyPaymentCalculator (of_Z 10000) (of_Z 10) 1 = (10084, 84).
Proof. repeat split; vm_compute; reflexivity. Qed.

Lemma int32_below_2_53 (z : Z) : Int32.in_range z -> Z.abs z < 2 ^ 53.
Proof.
  unfold Int32.in_range, Int32.min_int, Int32.max_int. intros Hz.
  change (2 ^ 53) with 9007199254740992. lia.
Qed.

(** The conversion to [int32] of [math.Ceil(x)] is the ceiling of [x]
    whenever that ceiling is an [int32]. *)
Lemma to_int32_Ceil (x : float64) (a : Z) :
  is_ceiling x a = true -> Int32.in_range a -> to_int32 (Ceil x) = a.
Proof.
  intros Hx Ha. apply to_int32_in_range; [| exact Ha].
  apply Ceil_is_ceiling; [exact Hx | apply int32_below_2_53; exact Ha].
Qed.




(** C4 fails as stated: the principal 80000 at 10 percent over 12 months
    gives (7034, 4408), and 45000 at 5 percent over 6 months gives
    (7610, 660); the end-to-end request therefore carries 7034 and 4408. *)
Lemma computeAnnuity_fixture_mismatch :
  monthlyPaymentCalculator (of_Z 80000) (of_Z 10) 12 <> (8792, 5504)
  /\ monthlyPaymentCalculator (of_Z 45000) (of_Z 5) 6 <> (8456, 736)
  /\ (let now := {| Time.year := 2024; Time.month := 2; Time.day := 18 |} in
      let a := resAggregates (respResult
                 (assembled now example_request "base")) in
      programValidator example_request = ("base"%string, None)
      /\ MonthlyPayment a <> 8792 /\ Overpayment a <> 5504).
Proof. repeat split; vm_compute; discriminate. Qed.

(** ** [Execute] *)

Lemma Execute_accepted (now : Time.Date) (s : Storage)
    (reqData : ExecuteReqeust) (loanProgram : string) :
  initialPaymentValidator (reqObjectCost reqData) (reqInitialPayment reqData)
    = true ->
  programValidator reqData = (loanProgram, None) ->
  let resp := assembled now reqData loanProgram in
  response (Execute now s (post reqData))
    = {| StatusCode := Some StatusOK; Written := Some (ExecutePayload resp) |}
  /\ store (Execute now s (post reqData)) = Load (respResult resp) s
  /\ events (Execute now s (post reqData))
     = [Calculated
          (of_Z (Int32.sub (reqObjectCost reqData) (reqInitialPayment reqData)))
          (of_Z (fst (getLoanRateAndProgram loanProgram)))
          (reqMonths reqData);
        Loaded (respResult resp)].
Proof.
  intros Hpay Hprog resp. subst resp.
  unfold Execute, post, assembled.
  cbn [Method DecodedBody String.eqb Ascii.eqb Bool.eqb negb].
  rewrite Hpay, Hprog. cbn [negb].
  destruct (getLoanRateAndProgram loanProgram) as [rate program].
  cbn [fst snd].
  match goal with
  | |- context [monthlyPaymentCalculator ?a ?b ?c] =>
      destruct (monthlyPaymentCalculator a b c) as [mp op]
  end.
  cbn [fst snd response store events]. repeat split.
Qed.

Lemma Execute_rejected_payment (now : Time.Date) (s : Storage)
    (reqData : ExecuteReqeust) :
  initialPaymentValidator (reqObjectCost reqData) (reqInitialPayment reqData)
    = false ->
  Execute now s (post reqData)
  = reply StatusBadRequest (ErrorMessage "the initial payment should be more") s.
Proof.
  intros Hpay. unfold Execute, post; simpl. rewrite Hpay. reflexivity.
Qed.

Lemma Execute_rejected_program (now : Time.Date) (s : Storage)
    (reqData : ExecuteReqeust) (err : ValidationError) :
  initialPaymentValidator (reqObjectCost reqData) (reqInitialPayment reqData)
    = true ->
  snd (programValidator reqData) = Some err ->
  Execute now s (post reqData)
  = reply StatusBadRequest (programValidatorErrorHandler err) s.
Proof.
  intros Hpay Hprog. unfold Execute, post; simpl. rewrite Hpay; simpl.
  destruct (programValidator reqData) as [name e]; simpl in Hprog.
  subst e. reflexivity.
Qed.

(** C4, as the code has it: the pairs (8792, 5504) and (8456, 736) are
    the annuities of the principals 100000 (10 percent, 12 months) and
    50000 (5 percent, 6 months) of the calculator's test; the principal
    80000 gives (7034, 4408) and the principal 45000 gives (7610, 660).
    The end-to-end request with object cost 100000, initial payment 20000,
    12 months and program base is answered with rate 10, loan sum 80000,
    monthly payment 7034 and overpayment 4408, whatever the date and the
    contents of the cache. *)
Theorem computeAnnuity_fixtures :
  monthlyPaymentCalculator (of_Z 100000) (of_Z 10) 12 = (8792, 5504)
  /\ monthlyPaymentCalculator (of_Z 50000) (of_Z 5) 6 = (8456, 736)
  /\ monthlyPaymentCalculator (of_Z 80000) (of_Z 10) 12 = (7034, 4408)
  /\ monthlyPaymentCalculator (of_Z 45000) (of_Z 5) 6 = (7610, 660)
  /\ forall now s,
      exists resp,
        response (Execute now s (post example_request))
        = {| StatusCode := Some StatusOK;
             Written := Some (ExecutePayload resp) |}
        /\ Rate (resAggregates (respResult resp)) = 10
        /\ LoanSum (resAggregates (respResult resp)) = 80000
        /\ MonthlyPayment (resAggregates (respResult resp)) = 7034
        /\ Overpayment (resAggregates (respResult resp)) = 4408.
Proof.
  do 4 (split; [vm_compute; reflexivity |]).
  intros now s.
  destruct (Execute_accepted now s example_request "base" eq_refl eq_refl)
    as (Hresp & _ & _).
  eexists. split; [exact Hresp |].
  repeat split; vm_compute; reflexivity.
Qed.





(** C7: a request that fails validation (insufficient initial payment, no
    program selected, or several programs selected) is answered with
    status 400 before the calculator or the cache is reached: no step of
    the calculation or insertion is run, and the store, entries and ID
    counter alike, is the one the handler started with. *)
Theorem Execute_failed_validation_no_effect (now : Time.Date) (s : Storage)
    (reqData : ExecuteReqeust) :
  initialPaymentValidator (reqObjectCost reqData) (reqInitialPayment reqData)
    = false
  \/ selected_count (reqProgram reqData) = 0%nat
  \/ (1 < selected_count (reqProgram reqData))%nat ->
  let o := Execute now s (post reqData) in
  events o = []
  /\ store o = s
  /\ str (store o) = str s
  /\ IDCounter (store o) = IDCounter s
  /\ StatusCode (response o) = Some StatusBadRequest
  /\ exists msg, Written (response o) = Some (ErrorMessage msg).
Proof.
  intros Hfail o. subst o.
  destruct (initialPaymentValidator (reqObjectCost reqData)
              (reqInitialPayment reqData)) eqn:Hpay.
  - assert (exists err, snd (programValidator reqData) = Some err)
      as [err Herr].
    { destruct (programValidator_cases reqData)
        as [[_ H0] | [[_ H2] | [H1 _]]];
        [rewrite H0; eauto | rewrite H2; eauto |].
      destruct Hfail as [H | [H | H]]; [discriminate | lia | lia]. }
    rewrite (Execute_rejected_program now s reqData err Hpay Herr).
    repeat split. destruct err; eexists; reflexivity.
  - rewrite (Execute_rejected_payment now s reqData Hpay).
    repeat split. eexists; reflexivity.
Qed.

Lemma Execute_failed_validation_no_effect_witness :
  store (Execute {| Time.year := 2024; Time.month := 2; Time.day := 18 |} New
           (post {| reqObjectCost := 100000; reqInitialPayment := 19999;
                    reqMonths := 12;
                    reqProgram := {| Salary := false; Military := false;
                                     Base := true |} |}))
  = New.
Proof.
  exact (proj1 (proj2 (Execute_failed_validation_no_effect
    {| Time.year := 2024; Time.month := 2; Time.day := 18 |} New
    {| reqObjectCost := 100000; reqInitialPayment := 19999; reqMonths := 12;
       reqProgram := {| Salary := false; Military := false; Base := true |} |}
    (or_introl eq_refl)))).
Defined.

(** ** The last payment date *)

Lemma append_empty_r (s : string) : String.append s EmptyString = s.
Proof.
  induction s as [| a s IH]; [reflexivity |].
  change (String a (String.append s EmptyString) = String a s).
  rewrite IH. reflexivity.
Qed.

(** C8 does not hold of the code: the date string of the assembled result
    is the year, the month, and the month once more; the day of the month
    is not in it.  On 2024-02-18 a term of 240 months gives "2044-02-02",
    where the date 240 months later reads "2044-02-18". *)
Theorem lastPaymentDate_repeats_month :
  (forall now reqData program rate monthlyPayment overpayment,
      let t := Time.AddDate_months now (reqMonths reqData) in
      LastPaymentDate (resAggregates (respResult
        (prepareResponse now reqData program rate monthlyPayment overpayment)))
      = String.append (Time.appendInt (Time.year t) 4)
          (String.append "-"
             (String.append (Time.appendInt (Time.month t) 2)
                (String.append "-" (Time.appendInt (Time.month t) 2)))))
  /\ (let now := {| Time.year := 2024; Time.month := 2; Time.day := 18 |} in
      let reqData :=
        {| reqObjectCost := 5000000; reqInitialPayment := 1000000;
           reqMonths := 240;
           reqProgram := {| Salary := true; Military := false;
                            Base := false |} |} in
      LastPaymentDate (resAggregates (respResult
        (assembled now reqData "salary"))) = "2044-02-02"%string
      /\ iso_date_after now (reqMonths reqData) = "2044-02-18"%string).
Proof.
  split.
  - intros now reqData program rate monthlyPayment overpayment t.
    unfold prepareResponse; cbn [respResult resAggregates LastPaymentDate].
    fold t. unfold Time.Format, Time.layout_2006_01_01.
    cbn [fold_right Time.format_chunk].
    rewrite append_empty_r. reflexivity.
  - split; vm_compute; reflexivity.
Qed.

(** ** The cache under concurrent calls *)

(** A call that runs its three steps with no other goroutine in between
    does what the sequential [Load] does. *)
Lemma run_alone_is_Load (v : Result) (s : Storage) :
  run [0; 0; 0]%nat (start [v] s)
  = ([{| value := v; point := Returned (IDCounter s) |}], Load v s).
Proof. destruct s as [m c]. reflexivity. Qed.

(** C2 does not hold of the code: the counter is read by one atomic
    operation and incremented by another, and calls that read before any
    of them increments all take the same ID.  Two such calls on a fresh
    store both take ID 0, and the store then holds one entry, the second
    call's, while the counter stands at 2.  With 100 callers that each
    take their first step before any takes its second, every call takes
    ID 0: the store holds one entry and the counter stands at 100. *)
Theorem concurrent_Load_shares_id :
  (forall v1 v2,
      let c := run [0; 1; 0; 1; 0; 1]%nat (start [v1; v2] New) in
      all_finished c = true
      /\ assigned <$> c.1 = [Some 0; Some 0]
      /\ str c.2 = {[ 0 := cacheData_of 0 v2 ]}
      /\ size (str c.2) = 1%nat
      /\ IDCounter c.2 = 2)
  /\ (forall v,
        let c := run (lockstep 100) (start (replicate 100 v) New) in
        all_finished c = true
        /\ assigned <$> c.1 = replicate 100 (Some 0)
        /\ str c.2 = {[ 0 := cacheData_of 0 v ]}
        /\ size (str c.2) = 1%nat
        /\ IDCounter c.2 = 100).
Proof.
  split.
  - intros v1 v2 c. subst c. repeat split; vm_compute; reflexivity.
  - intros v c. subst c. repeat split; vm_compute; reflexivity.
Qed.

(** *** Any number of callers in lock step *)

Lemma run_app (sch1 sch2 : list nat) (c : config) :
  run (sch1 ++ sch2) c = run sch2 (run sch1 c).
Proof. unfold run. apply foldl_app. Qed.

Lemma run_cons (i : nat) (sch : list nat) (c : config) :
  run (i :: sch) c = run sch (schedule_step c i).
Proof. reflexivity. Qed.

(** Scheduling the goroutines at positions [length pre], ... in turn is a
    [round] over them. *)
Lemma run_seq_round (gs pre : list goroutine) (s : Storage) :
  run (seq (length pre) (length gs)) (pre ++ gs, s)
  = (pre ++ (round gs s).1, (round gs s).2).
Proof.
  revert pre s. induction gs as [| g gs IH]; intros pre s.
  - reflexivity.
  - cbn [length seq]. rewrite run_cons.
    unfold schedule_step. cbn [fst snd].
    rewrite list_lookup_middle by reflexivity.
    cbn [round].
    destruct (step g s) as [g' s'].
    replace (<[length pre := g']> (pre ++ g :: gs)) with ((pre ++ [g']) ++ gs).
    2:{ rewrite insert_app_r_alt by lia.
        rewrite Nat.sub_diag. cbn. rewrite <- app_assoc. reflexivity. }
    replace (S (length pre)) with (length (pre ++ [g'])).
    2:{ rewrite length_app. cbn. lia. }
    rewrite IH. destruct (round gs s') as [gs'' s'']. cbn [fst snd].
    rewrite <- app_assoc. reflexivity.
Qed.

Lemma run_seq_all (gs : list goroutine) (s : Storage) (n : nat) :
  length gs = n -> run (seq 0 n) (gs, s) = round gs s.
Proof.
  intros <-. pose proof (run_seq_round gs [] s) as H. cbn [length app] in H.
  rewrite H. destruct (round gs s). reflexivity.
Qed.

Lemma round_length (gs : list goroutine) (s : Storage) :
  length (round gs s).1 = length gs.
Proof.
  revert s. induction gs as [| g gs IH]; intros s; [reflexivity |].
  cbn [round]. destruct (step g s) as [g' s'].
  specialize (IH s'). destruct (round gs s') as [gs'' s''].
  cbn [fst length] in *. rewrite IH. reflexivity.
Qed.

(** First round: every call reads the same counter. *)
Lemma round_read (values : list Result) (s : Storage) :
  round (call <$> values) s
  = ((fun v => {| value := v; point := AtIncrement (IDCounter s) |})
       <$> values, s).
Proof.
  induction values as [| v values IH]; [reflexivity |].
  cbn [fmap list_fmap round step call point value].
  change (list_fmap _ _ call values) with (call <$> values).
  rewrite IH. reflexivity.
Qed.

(** Second round: every call increments the counter. *)
Lemma round_increment (values : list Result) (id : Z) (s : Storage) :
  Int32.in_range (IDCounter s) ->
  round ((fun v => {| value := v; point := AtIncrement id |}) <$> values) s
  = ((fun v => {| value := v; point := AtStore id |}) <$> values,
     {| str := str s;
        IDCounter := Int32.wrap (IDCounter s + Z.of_nat (length values)) |}).
Proof.
  revert s. induction values as [| v values IH]; intros s Hs.
  - cbn [fmap list_fmap round length Z.of_nat].
    rewrite Z.add_0_r, (Int32_wrap_id _ Hs). destruct s; reflexivity.
  - cbn [fmap list_fmap round step point value].
    change (list_fmap _ _ ?f values) with (f <$> values).
    rewrite IH by (cbn [IDCounter]; apply Int32_wrap_in_range).
    cbn [str IDCounter]. unfold Int32.add. rewrite Int32_wrap_add_l.
    do 3 f_equal. cbn [length]. lia.
Qed.

(** Third round: every call stores its entry under the ID it read. *)
Lemma round_store (values : list Result) (id : Z) (s : Storage) :
  let r := round ((fun v => {| value := v; point := AtStore id |})
                    <$> values) s in
  r.1 = (fun v => {| value := v; point := Returned id |}) <$> values
  /\ IDCounter r.2 = IDCounter s
  /\ dom (str r.2)
     = (if decide (values = []) then ∅ else {[ id ]}) ∪ dom (str s).
Proof.
  revert s. induction values as [| v values IH]; intros s.
  - cbn [fmap list_fmap round fst snd].
    split; [reflexivity |]. split; [reflexivity |].
    rewrite decide_True by reflexivity. symmetry. apply (left_id_L ∅ (∪)).
  - cbn [fmap list_fmap round step point value].
    change (list_fmap _ _ ?f values) with (f <$> values).
    match goal with
    | |- context [round _ ?s1] => specialize (IH s1); set (s' := s1) in *
    end.
    destruct (round _ s') as [gs'' s''].
    cbn [fst snd] in *. destruct IH as (Hgs & Hc & Hdom).
    rewrite Hgs, Hc, Hdom. subst s'. cbn [str IDCounter].
    split; [reflexivity |]. split; [reflexivity |].
    rewrite dom_insert_L.
    rewrite (decide_False (P := v :: values = [])) by (intros ?; discriminate).
    destruct (decide (values = [])).
    + apply (left_id_L ∅ (∪)).
    + rewrite (assoc_L (∪)), (idemp_L (∪)). reflexivity.
Qed.

(** With any positive number of callers that proceed in lock step on a
    fresh store, every call is given the ID 0 and the store ends with a
    single entry, while the counter has advanced once per call. *)
Lemma lockstep_single_entry (values : list Result) :
  values <> [] ->
  let c := run (lockstep (length values)) (start values New) in
  c.1 = (fun v => {| value := v; point := Returned 0 |}) <$> values
  /\ dom (str c.2) = {[ 0 ]}
  /\ size (str c.2) = 1%nat
  /\ IDCounter c.2 = Int32.wrap (Z.of_nat (length values)).
Proof.
  intros Hne c. subst c. unfold lockstep, start.
  rewrite !run_app.
  rewrite (run_seq_all (call <$> values)) by apply length_fmap.
  rewrite round_read. cbn [New IDCounter].
  rewrite (run_seq_all (_ <$> values)) by apply length_fmap.
  rewrite round_increment
    by (cbn; unfold Int32.in_range, Int32.min_int, Int32.max_int; lia).
  cbn [str IDCounter New]. rewrite Z.add_0_l.
  rewrite (run_seq_all (_ <$> values)) by apply length_fmap.
  match goal with
  | |- context [round ?gs ?s] =>
      destruct (round_store values 0 s) as (Hgs & Hc & Hdom)
  end.
  rewrite decide_False in Hdom by exact Hne.
  cbn [str IDCounter] in Hdom, Hc.
  rewrite dom_empty_L, (right_id_L ∅ (∪)) in Hdom.
  split; [exact Hgs |]. split; [exact Hdom |].
  split; [| exact Hc].
  rewrite <- size_dom, Hdom. apply size_singleton.
Qed.

(** ** The cache under sequential calls *)

Lemma load_all_snoc (values : list Result) (v : Result) (s : Storage) :
  load_all (values ++ [v]) s = Load v (load_all values s).
Proof. unfold load_all. rewrite foldl_app. reflexivity. Qed.

(** The counter after a run of calls on a fresh store: the number of
    calls, wrapped to [int32]. *)
Lemma load_all_counter (values : list Result) :
  IDCounter (load_all values New) = Int32.wrap (Z.of_nat (length values)).
Proof.
  induction values as [| v values IH] using rev_ind; [reflexivity |].
  rewrite load_all_snoc. unfold Load; cbn [IDCounter].
  rewrite IH. unfold Int32.add. rewrite Int32_wrap_add_l.
  f_equal. rewrite length_app, Nat2Z.inj_add. reflexivity.
Qed.

(** While the counter has not wrapped, the store after a run of calls maps
    exactly the numbers below the number of calls, each to the entry made
    of the value inserted at that position. *)
Lemma load_all_fresh (values : list Result) :
  Z.of_nat (length values) <= 2147483648 ->
  size (str (load_all values New)) = length values
  /\ forall k,
      str (load_all values New) !! k
      = if decide (0 <= k < Z.of_nat (length values))
        then cacheData_of k <$> values !! Z.to_nat k
        else None.
Proof.
  induction values as [| v values IH] using rev_ind.
  - intros _. split; [reflexivity |].
    intros k. cbn [load_all foldl New str length].
    rewrite lookup_empty. case_decide; [lia | reflexivity].
  - rewrite length_app, Nat2Z.inj_add. cbn [length]. intros Hlen.
    destruct IH as [IHsize IHlook]; [lia |].
    rewrite load_all_snoc. unfold Load; cbn [str].
    rewrite load_all_counter.
    assert (Hid : Int32.wrap (Z.of_nat (length values))
                  = Z.of_nat (length values)).
    { apply Int32_wrap_id.
      unfold Int32.in_range, Int32.min_int, Int32.max_int. lia. }
    rewrite Hid. split.
    + rewrite map_size_insert_None.
      * rewrite IHsize. lia.
      * rewrite IHlook. case_decide; [lia | reflexivity].
    + intros k.
      destruct (decide (k = Z.of_nat (length values))) as [-> | Hne].
      * rewrite lookup_insert_eq. case_decide; [| lia].
        rewrite Nat2Z.id, list_lookup_middle; reflexivity.
      * rewrite lookup_insert_ne by congruence. rewrite IHlook.
        repeat case_decide; try lia; try reflexivity.
        rewrite lookup_app_l by lia. reflexivity.
Qed.

Lemma HasData_false_iff (s : Storage) :
  HasData s = false <-> size (str s) = 0%nat.
Proof.
  unfold HasData. rewrite negb_false_iff. apply Nat.eqb_eq.
Qed.

Lemma ReadAll_length (s : Storage) (out : list CacheStorageFormat) :
  ReadAll s out -> length out = size (str s).
Proof.
  unfold ReadAll, ReadAll_canonical. intros Hperm.
  rewrite (Permutation_length Hperm), length_fmap.
  apply length_map_to_list.
Qed.

(** C3, as the code has it: after N sequential [Load] calls on a fresh
    store, with N at most 2^31 (the non-negative values of the [int32]
    counter, after which it wraps), the store holds exactly N entries,
    their IDs are 0, 1, ..., N-1 in the order of insertion, every result
    of [ReadAll] has length N, and [HasData] is false exactly when the
    store has no entry, which is when N is 0. *)
Theorem sequential_Load_spec (values : list Result) :
  Z.of_nat (length values) <= 2147483648 ->
  let s := load_all values New in
  size (str s) = length values
  /\ ids_follow_insertion values s
  /\ (forall out, ReadAll s out -> length out = length values)
  /\ (HasData s = false <-> size (str s) = 0%nat)
  /\ (HasData s = false <-> length values = 0%nat).
Proof.
  intros Hlen s. subst s.
  destruct (load_all_fresh values Hlen) as [Hsize Hlook].
  split; [exact Hsize |].
  split; [split |].
  - intros i v Hi. rewrite Hlook.
    pose proof (lookup_lt_Some _ _ _ Hi) as Hlt.
    case_decide; [| lia].
    rewrite Nat2Z.id, Hi. reflexivity.
  - intros k e Hk. rewrite Hlook in Hk.
    case_decide as Hin; [| discriminate].
    destruct (values !! Z.to_nat k) as [v |]; [| discriminate].
    injection Hk as <-. split; [reflexivity | exact Hin].
  - split; [| split].
    + intros out Hout. rewrite (ReadAll_length _ _ Hout). exact Hsize.
    + apply HasData_false_iff.
    + rewrite HasData_false_iff, Hsize. reflexivity.
Qed.

Lemma sequential_Load_spec_witness :
  size (str (load_all [sample_result; sample_result; sample_result] New))
  = 3%nat.
Proof.
  refine (proj1 (sequential_Load_spec
                   [sample_result; sample_result; sample_result] _)).
  vm_compute. discriminate.
Defined.

(** The call that follows 2^31 earlier ones finds the counter wrapped to
    the most negative [int32] and stores its entry under that ID. *)
Lemma load_all_wrapped_id (values : list Result) (v : Result) :
  Z.of_nat (length values) = 2147483648 ->
  str (load_all (values ++ [v]) New) !! (-2147483648)
  = Some (cacheData_of (-2147483648) v).
Proof.
  intros Hlen. rewrite load_all_snoc. unfold Load; cbn [str].
  rewrite load_all_counter, Hlen.
  change (Int32.wrap 2147483648) with (-2147483648).
  apply lookup_insert_eq.
Qed.

(** C3 fails as stated for N = 2^31 + 1: the last of that many sequential
    calls is given the ID -2147483648, below every ID given before it. *)
Lemma sequential_Load_id_wraps :
  let values :=
    replicate (Z.to_nat 2147483648) sample_result ++ [sample_result] in
  Z.of_nat (length values) = 2147483649
  /\ ~ ids_follow_insertion values (load_all values New).
Proof.
  intros values.
  assert (Hlen : Z.of_nat (length (replicate (Z.to_nat 2147483648)
                                             sample_result)) = 2147483648).
  { rewrite length_replicate. apply Z2Nat.id. discriminate. }
  split.
  - unfold values. rewrite length_app, Nat2Z.inj_add, Hlen. reflexivity.
  - intros [_ Hkeys].
    destruct (Hkeys _ _ (load_all_wrapped_id _ sample_result Hlen))
      as [_ [Hk _]].
    exact (Hk eq_refl).
Qed.

(** * Further properties of the handlers *)

(** The name [programValidator] returns for a request with exactly one
    flag leads [getLoanRateAndProgram] back to the flags of the request,
    with the rate of that program: 10 for base, 9 for military, 8 for
    salary. *)
Theorem getLoanRateAndProgram_of_validated (data : ExecuteReqeust) :
  selected_count (reqProgram data) = 1%nat ->
  getLoanRateAndProgram (fst (programValidator data))
  = (rate_of_flags (reqProgram data), reqProgram data)
  /\ (Base (reqProgram data) = true -> rate_of_flags (reqProgram data) = 10)
  /\ (Military (reqProgram data) = true ->
      rate_of_flags (reqProgram data) = 9)
  /\ (Salary (reqProgram data) = true -> rate_of_flags (reqProgram data) = 8).
Proof.
  destruct data as [oc ip mo [[] [] []]]; intros Hone;
    try (vm_compute in Hone; discriminate);
    repeat split; intros; try discriminate; reflexivity.
Qed.

Lemma getLoanRateAndProgram_of_validated_witness :
  getLoanRateAndProgram (fst (programValidator example_request))
  = (10, reqProgram example_request).
Proof.
  exact (proj1 (getLoanRateAndProgram_of_validated example_request eq_refl)).
Defined.

(** [Execute] answers a decoded POST request with status 200 exactly when
    the initial payment passes its validator and exactly one program flag
    is set.  The result then repeats the three parameters and the flags of
    the request and carries the rate of the selected program (10, 9 or 8,
    never the 0 of an unknown name) and the [int32] difference of cost and
    initial payment as the loan sum. *)
Theorem Execute_success (now : Time.Date) (s : Storage)
    (reqData : ExecuteReqeust) :
  let o := Execute now s (post reqData) in
  (StatusCode (response o) = Some StatusOK
   <-> initialPaymentValidator (reqObjectCost reqData)
         (reqInitialPayment reqData) = true
       /\ selected_count (reqProgram reqData) = 1%nat)
  /\ (StatusCode (response o) = Some StatusOK ->
      exists resp,
        Written (response o) = Some (ExecutePayload resp)
        /\ resParams (respResult resp)
           = {| ObjectCost := reqObjectCost reqData;
                InitialPayment := reqInitialPayment reqData;
                Months := reqMonths reqData |}
        /\ resProgram (respResult resp) = reqProgram reqData
        /\ Rate (resAggregates (respResult resp))
           = rate_of_flags (reqProgram reqData)
        /\ In (Rate (resAggregates (respResult resp))) [8; 9; 10]
        /\ LoanSum (resAggregates (respResult resp))
           = Int32.sub (reqObjectCost reqData) (reqInitialPayment reqData)).
Proof.
  intros o. subst o.
  destruct (initialPaymentValidator (reqObjectCost reqData)
              (reqInitialPayment reqData)) eqn:Hpay.
  - destruct (programValidator_cases reqData)
      as [[H0 Hv] | [[H2 Hv] | [H1 Hnone]]].
    + rewrite (Execute_rejected_program now s reqData ErrNoTrueValues Hpay)
        by (rewrite Hv; reflexivity).
      split; [split; [discriminate | intros [_ H]; lia] | discriminate].
    + rewrite (Execute_rejected_program now s reqData ErrMoreThanOneTrue Hpay)
        by (rewrite Hv; reflexivity).
      split; [split; [discriminate | intros [_ H]; lia] | discriminate].
    + assert (Hprog : programValidator reqData
                      = (fst (programValidator reqData), None)).
      { destruct (programValidator reqData) as [name e].
        cbn in Hnone |- *. subst e. reflexivity. }
      destruct (Execute_accepted now s reqData _ Hpay Hprog)
        as (Hresp & _ & _).
      rewrite Hresp. cbn [StatusCode Written].
      split; [split; [intros _; split; [reflexivity | exact H1]
                     | reflexivity] |].
      intros _. eexists. split; [reflexivity |].
      destruct reqData as [oc ip mo [[] [] []]];
        try (vm_compute in H1; discriminate);
        cbn [reqProgram reqObjectCost reqInitialPayment reqMonths];
        repeat split; cbn; auto.
  - rewrite (Execute_rejected_payment now s reqData Hpay).
    split; [split; [discriminate | intros [H _]; discriminate]
           | discriminate].
Qed.

Lemma Execute_success_witness :
  exists resp,
    Written (response (Execute {| Time.year := 2024; Time.month := 2;
                                  Time.day := 18 |} New
                         (post example_request)))
    = Some (ExecutePayload resp)
    /\ Rate (resAggregates (respResult resp)) = 10
    /\ LoanSum (resAggregates (respResult resp)) = 80000.
Proof.
  pose proof (Execute_success
                {| Time.year := 2024; Time.month := 2; Time.day := 18 |}
                New example_request) as [Hiff Hres].
  destruct (Hres (proj2 Hiff (conj eq_refl eq_refl)))
    as (resp & Hw & _ & _ & Hrate & _ & Hloan).
  exists resp. split; [exact Hw |]. split; [exact Hrate | exact Hloan].
Defined.

(** The error answers of [Execute], in the order of its tests: a request
    whose initial payment fails gets the payment message whatever its
    program flags are; with a valid payment, no flag gives "choose
    program" and more than one flag gives "choose only 1 program".  All
    three carry status 400. *)
Theorem Execute_error_messages (now : Time.Date) (s : Storage)
    (reqData : ExecuteReqeust) :
  let ok := initialPaymentValidator (reqObjectCost reqData)
              (reqInitialPayment reqData) in
  let answer := response (Execute now s (post reqData)) in
  (ok = false ->
   answer = {| StatusCode := Some StatusBadRequest;
               Written := Some (ErrorMessage
                                  "the initial payment should be more") |})
  /\ (ok = true -> selected_count (reqProgram reqData) = 0%nat ->
      answer = {| StatusCode := Some StatusBadRequest;
                  Written := Some (ErrorMessage "choose program") |})
  /\ (ok = true -> (1 < selected_count (reqProgram reqData))%nat ->
      answer = {| StatusCode := Some StatusBadRequest;
                  Written := Some (ErrorMessage "choose only 1 program") |}).
Proof.
  intros ok answer. subst ok answer. repeat split.
  - intros Hpay. rewrite (Execute_rejected_payment now s reqData Hpay).
    reflexivity.
  - intros Hpay H0.
    destruct (programValidator_cases reqData)
      as [[_ Hv] | [[H2 _] | [H1 _]]]; [| lia | lia].
    rewrite (Execute_rejected_program now s reqData ErrNoTrueValues Hpay)
      by (rewrite Hv; reflexivity).
    reflexivity.
  - intros Hpay H2.
    destruct (programValidator_cases reqData)
      as [[H0 _] | [[_ Hv] | [H1 _]]]; [lia | | lia].
    rewrite (Execute_rejected_program now s reqData ErrMoreThanOneTrue Hpay)
      by (rewrite Hv; reflexivity).
    reflexivity.
Qed.

Lemma Execute_error_messages_witness :
  Written (response (Execute {| Time.year := 2024; Time.month := 2;
                                Time.day := 18 |} New
      (post {| reqObjectCost := 100000; reqInitialPayment := 0;
               reqMonths := 12;
               reqProgram := {| Salary := true; Military := true;
                                Base := false |} |})))
  = Some (ErrorMessage "the initial payment should be more")
  /\ Written (response (Execute {| Time.year := 2024; Time.month := 2;
                                   Time.day := 18 |} New
      (post {| reqObjectCost := 100000; reqInitialPayment := 20000;
               reqMonths := 12;
               reqProgram := {| Salary := true; Military := true;
                                Base := false |} |})))
     = Some (ErrorMessage "choose only 1 program")
  /\ Written (response (Execute {| Time.year := 2024; Time.month := 2;
                                   Time.day := 18 |} New
      (post {| reqObjectCost := 100000; reqInitialPayment := 20000;
               reqMonths := 12; reqProgram := emptyProgram |})))
     = Some (ErrorMessage "choose program").
Proof.
  pose proof (Execute_error_messages
    {| Time.year := 2024; Time.month := 2; Time.day := 18 |} New
    {| reqObjectCost := 100000; reqInitialPayment := 0; reqMonths := 12;
       reqProgram := {| Salary := true; Military := true; Base := false |} |})
    as (Hpayment & _ & _).
  pose proof (Execute_error_messages
    {| Time.year := 2024; Time.month := 2; Time.day := 18 |} New
    {| reqObjectCost := 100000; reqInitialPayment := 20000; reqMonths := 12;
       reqProgram := {| Salary := true; Military := true; Base := false |} |})
    as (_ & _ & Hmany).
  pose proof (Execute_error_messages
    {| Time.year := 2024; Time.month := 2; Time.day := 18 |} New
    {| reqObjectCost := 100000; reqInitialPayment := 20000; reqMonths := 12;
       reqProgram := emptyProgram |})
    as (_ & Hnone & _).
  split; [| split].
  - rewrite (Hpayment eq_refl). reflexivity.
  - rewrite (Hmany eq_refl (le_n 2)). reflexivity.
  - rewrite (Hnone eq_refl eq_refl). reflexivity.
Defined.

(** Whatever the request (any method, body decoded or not), [Execute]
    either leaves the store as it found it, running neither the
    calculator nor [Load], or it answers 200 with a result and the store
    is the old one with exactly that result loaded.  A method other than
    POST is answered 405 even when the body is a valid request. *)
Theorem Execute_store_effect (now : Time.Date) (s : Storage) (r : HttpRequest) :
  let o := Execute now s r in
  ((store o = s /\ events o = []
    /\ StatusCode (response o) <> Some StatusOK)
   \/ (exists resp,
         response o = {| StatusCode := Some StatusOK;
                         Written := Some (ExecutePayload resp) |}
         /\ store o = Load (respResult resp) s
         /\ Method r = "POST"%string))
  /\ (Method r <> "POST"%string ->
      response o = {| StatusCode := Some StatusMethodNotAllowed;
                      Written := Some (ErrorMessage
                                         "only post method allowed") |}
      /\ store o = s).
Proof.
  intros o. subst o. destruct r as [method body].
  cbn [Method].
  destruct (String.eqb_spec method "POST") as [-> | Hm].
  - split; [| intros H; contradiction].
    destruct body as [reqData |].
    + change {| Method := "POST"; DecodedBody := Some reqData |}
        with (post reqData).
      destruct (initialPaymentValidator (reqObjectCost reqData)
                  (reqInitialPayment reqData)) eqn:Hpay.
      * destruct (programValidator reqData) as [name [err |]] eqn:Hprog.
        -- rewrite (Execute_rejected_program now s reqData err Hpay)
             by (rewrite Hprog; reflexivity).
           left. repeat split. discriminate.
        -- destruct (Execute_accepted now s reqData name Hpay Hprog)
             as (Hresp & Hstore & _).
           right. eexists. split; [exact Hresp |].
           split; [exact Hstore | reflexivity].
      * rewrite (Execute_rejected_payment now s reqData Hpay).
        left. repeat split. discriminate.
    + left. repeat split. discriminate.
  - assert (Hex : Execute now s {| Method := method; DecodedBody := body |}
                  = reply StatusMethodNotAllowed
                          (ErrorMessage "only post method allowed") s).
    { unfold Execute. cbn [Method].
      destruct (String.eqb_spec method "POST"); [contradiction |].
      reflexivity. }
    rewrite Hex. split.
    + left. repeat split. discriminate.
    + intros _. split; reflexivity.
Qed.

Lemma Execute_store_effect_witness :
  store (Execute {| Time.year := 2024; Time.month := 2; Time.day := 18 |} New
           {| Method := "GET"; DecodedBody := Some example_request |})
  = New.
Proof.
  refine (proj2 (proj2 (Execute_store_effect
    {| Time.year := 2024; Time.month := 2; Time.day := 18 |} New
    {| Method := "GET"; DecodedBody := Some example_request |}) _)).
  discriminate.
Defined.

(** * Further properties of the cache *)

(** [Load] files the new entry under the counter's value and touches no
    other key.  When that value is already a key, the entry stored there
    is replaced and the number of entries stays; otherwise the number
    grows by one.  No key is ever removed. *)
Theorem Load_effect (v : Result) (s : Storage) :
  str (Load v s) !! IDCounter s = Some (cacheData_of (IDCounter s) v)
  /\ (forall k, k <> IDCounter s -> str (Load v s) !! k = str s !! k)
  /\ dom (str (Load v s)) = {[ IDCounter s ]} ∪ dom (str s)
  /\ (is_Some (str s !! IDCounter s) ->
      size (str (Load v s)) = size (str s))
  /\ (str s !! IDCounter s = None ->
      size (str (Load v s)) = S (size (str s))).
Proof.
  unfold Load; cbn [str]. repeat split.
  - apply lookup_insert_eq.
  - intros k Hk. apply lookup_insert_ne. congruence.
  - apply dom_insert_L.
  - intros He. apply map_size_insert_Some. exact He.
  - intros Hnone. apply map_size_insert_None. exact Hnone.
Qed.

Lemma Load_effect_witness :
  size (str (Load sample_result (Load sample_result New))) = 2%nat
  /\ size (str (Load sample_result
                  {| str := str (Load sample_result New); IDCounter := 0 |}))
     = 1%nat.
Proof.
  split.
  - rewrite (proj2 (proj2 (proj2 (proj2
               (Load_effect sample_result (Load sample_result New)))))
               eq_refl).
    reflexivity.
  - rewrite (proj1 (proj2 (proj2 (proj2
               (Load_effect sample_result
                  {| str := str (Load sample_result New);
                     IDCounter := 0 |}))))).
    + reflexivity.
    + eexists. reflexivity.
Defined.

Lemma HasData_Load (v : Result) (s : Storage) : HasData (Load v s) = true.
Proof.
  unfold HasData, Load; cbn [str].
  apply negb_true_iff, Nat.eqb_neq. intros Hz.
  apply map_size_empty_iff in Hz.
  exact (insert_non_empty _ _ _ Hz).
Qed.

(** A store that holds data keeps holding data: after one [Load] or more
    on any store, and after any run of [Load] calls on a store that has
    data, [HasData] is true and the [Cache] handler answers a GET with
    status 200 and the entries it read, never with "empty cache". *)
Theorem populated_store_stays_populated (s : Storage) (values : list Result) :
  values <> [] \/ HasData s = true ->
  HasData (load_all values s) = true
  /\ forall out,
      Cache (load_all values s) "GET" out
      = {| StatusCode := Some StatusOK; Written := Some (CachePayload out) |}.
Proof.
  intros Hcase.
  assert (Hdata : HasData (load_all values s) = true).
  { destruct values as [| v values _] using rev_ind.
    - destruct Hcase as [H | H]; [contradiction | exact H].
    - rewrite load_all_snoc. apply HasData_Load. }
  split; [exact Hdata |].
  intros out. unfold Cache. rewrite Hdata. reflexivity.
Qed.

Lemma populated_store_stays_populated_witness :
  HasData (load_all [sample_result; sample_result] New) = true.
Proof.
  refine (proj1 (populated_store_stays_populated New
                   [sample_result; sample_result] _)).
  left. discriminate.
Defined.

(** The [Cache] handler on a store without entries answers a GET with
    status 400 and "empty cache"; a method other than GET is answered 405
    whether or not the store has entries. *)
Theorem Cache_empty_and_method (s : Storage) (method : string)
    (out : list CacheStorageFormat) :
  (method = "GET"%string -> size (str s) = 0%nat ->
   Cache s method out
   = {| StatusCode := Some StatusBadRequest;
        Written := Some (ErrorMessage "empty cache") |})
  /\ (method <> "GET"%string ->
      Cache s method out
      = {| StatusCode := Some StatusMethodNotAllowed;
           Written := Some (ErrorMessage "only get method allowed") |}).
Proof.
  split.
  - intros -> Hsize. unfold Cache. cbn.
    apply HasData_false_iff in Hsize. rewrite Hsize. reflexivity.
  - intros Hm. unfold Cache.
    destruct (String.eqb_spec method "GET"); [contradiction | reflexivity].
Qed.

Lemma Cache_empty_and_method_witness :
  Cache New "GET" []
  = {| StatusCode := Some StatusBadRequest;
       Written := Some (ErrorMessage "empty cache") |}
  /\ Cache (Load sample_result New) "POST" []
     = {| StatusCode := Some StatusMethodNotAllowed;
          Written := Some (ErrorMessage "only get method allowed") |}.
Proof.
  split.
  - exact (proj1 (Cache_empty_and_method New "GET" []) eq_refl eq_refl).
  - refine (proj2 (Cache_empty_and_method (Load sample_result New)
                     "POST" []) _).
    discriminate.
Defined.

(** An accepted request sent to a fresh store, followed by a GET of the
    cache: [ReadAll] can return one list only, the single entry with ID 0
    whose parameters, program and aggregates are those of the result just
    returned, and the [Cache] handler answers 200 with that list. *)
Theorem Execute_then_Cache (now : Time.Date) (reqData : ExecuteReqeust) :
  initialPaymentValidator (reqObjectCost reqData) (reqInitialPayment reqData)
    = true ->
  selected_count (reqProgram reqData) = 1%nat ->
  let o := Execute now New (post reqData) in
  exists resp,
    response o = {| StatusCode := Some StatusOK;
                    Written := Some (ExecutePayload resp) |}
    /\ forall out,
        ReadAll (store o) out ->
        out = [ {| csAggregates := resAggregates (respResult resp);
                   csParams := resParams (respResult resp);
                   csProgram := resProgram (respResult resp);
                   csID := 0 |} ]
        /\ Cache (store o) "GET" out
           = {| StatusCode := Some StatusOK;
                Written := Some (CachePayload out) |}.
Proof.
  intros Hpay Hone o. subst o.
  assert (Hprog : programValidator reqData
                  = (fst (programValidator reqData), None)).
  { destruct (programValidator_cases reqData)
      as [[H0 _] | [[H2 _] | [_ Hnone]]]; [lia | lia |].
    destruct (programValidator reqData) as [name e].
    cbn in Hnone |- *. subst e. reflexivity. }
  destruct (Execute_accepted now New reqData _ Hpay Hprog)
    as (Hresp & Hstore & _).
  eexists. split; [exact Hresp |].
  intros out Hout. rewrite Hstore in Hout |- *.
  split.
  - unfold ReadAll, ReadAll_canonical, Load, New in Hout.
    cbn [str IDCounter] in Hout.
    rewrite insert_empty, map_to_list_singleton in Hout.
    apply Permutation_singleton_r in Hout. exact Hout.
  - unfold Cache. rewrite HasData_Load. reflexivity.
Qed.

Lemma Execute_then_Cache_witness :
  exists resp,
    response (Execute {| Time.year := 2024; Time.month := 2; Time.day := 18 |}
                New (post example_request))
    = {| StatusCode := Some StatusOK;
         Written := Some (ExecutePayload resp) |}.
Proof.
  destruct (Execute_then_Cache
              {| Time.year := 2024; Time.month := 2; Time.day := 18 |}
              example_request eq_refl eq_refl) as (resp & Hresp & _).
  exists resp. exact Hresp.
Defined.

(** * Further properties of concurrent [Load] calls *)

Lemma run_preserves (P : config -> Prop) :
  (forall c i, P c -> P (schedule_step c i)) ->
  forall schedule c, P c -> P (run schedule c).
Proof.
  intros Hstep schedule. induction schedule as [| i schedule IH]; intros c Hc.
  - exact Hc.
  - rewrite run_cons. apply IH, Hstep, Hc.
Qed.

(** A scheduled step either changes nothing (no goroutine at that
    position) or replaces one goroutine by its successor. *)
Lemma schedule_step_cases (c : config) (i : nat) :
  schedule_step c i = c
  \/ exists l1 g l2,
      c.1 = l1 ++ g :: l2
      /\ schedule_step c i = (l1 ++ (step g c.2).1 :: l2, (step g c.2).2).
Proof.
  unfold schedule_step. destruct (c.1 !! i) as [g |] eqn:Hi; [| left; reflexivity].
  right. apply list_elem_of_split_length in Hi as (l1 & l2 & Hgs & Hlen).
  exists l1, g, l2. split; [exact Hgs |].
  destruct (step g c.2) as [g' s']. cbn [fst snd]. f_equal.
  rewrite Hgs, Hlen. rewrite insert_app_r_alt by lia.
  rewrite Nat.sub_diag. reflexivity.
Qed.

Lemma countb_app {A : Type} (f : A -> bool) (l1 l2 : list A) :
  countb f (l1 ++ l2) = (countb f l1 + countb f l2)%nat.
Proof. unfold countb. rewrite List.filter_app, length_app. reflexivity. Qed.

Lemma countb_cons {A : Type} (f : A -> bool) (x : A) (l : list A) :
  countb f (x :: l) = ((if f x then 1 else 0) + countb f l)%nat.
Proof. unfold countb. cbn [List.filter]. destruct (f x); reflexivity. Qed.

Lemma countb_le_length {A : Type} (f : A -> bool) (l : list A) :
  (countb f l <= length l)%nat.
Proof.
  induction l as [| x l IH]; [reflexivity |].
  rewrite countb_cons. cbn [length]. destruct (f x); lia.
Qed.

Lemma countb_all {A : Type} (f : A -> bool) (l : list A) :
  forallb f l = true -> countb f l = length l.
Proof.
  induction l as [| x l IH]; [reflexivity |].
  cbn [forallb]. intros [Hx Hl]%andb_true_iff.
  rewrite countb_cons, Hx, (IH Hl). reflexivity.
Qed.

Lemma countb_call (f : goroutine -> bool) (values : list Result) :
  (forall v, f (call v) = false) -> countb f (call <$> values) = 0%nat.
Proof.
  intros Hf. induction values as [| v values IH]; [reflexivity |].
  rewrite fmap_cons, countb_cons, Hf, IH. reflexivity.
Qed.

Lemma load_invariant_start (values : list Result) :
  load_invariant values (start values New).
Proof.
  unfold load_invariant, keyed_by_id, start; cbn [fst snd New str IDCounter].
  rewrite !countb_call by reflexivity.
  split.
  { rewrite <- list_fmap_compose. apply list_fmap_id. }
  split; [intros k e He; rewrite lookup_empty in He; discriminate |].
  split; [reflexivity |].
  split; [rewrite map_size_empty; lia |].
  split; [lia |].
  intros k e He. rewrite lookup_empty in He. discriminate.
Qed.

Lemma load_invariant_step (values : list Result) (c : config) (i : nat) :
  load_invariant values c -> load_invariant values (schedule_step c i).
Proof.
  intros Hinv.
  destruct (schedule_step_cases c i) as [-> | (l1 & g & l2 & Hgs & ->)];
    [exact Hinv |].
  destruct c as [gs s]. cbn [fst snd] in *. subst gs.
  destruct Hinv as (Hval & Hkey & Hcnt & Hle & Hpos & Hfrom).
  cbn [fst snd] in *.
  rewrite countb_app, countb_cons in Hcnt, Hle, Hpos.
  assert (Hv : value g ∈ values).
  { rewrite <- Hval, fmap_app, fmap_cons.
    apply elem_of_app. right. apply elem_of_cons. left. reflexivity. }
  unfold load_invariant. cbn [fst snd].
  rewrite !countb_app, !countb_cons.
  assert (Hvals : forall g', value g' = value g ->
                  value <$> l1 ++ g' :: l2 = values).
  { intros g' Hg'. rewrite <- Hval, !fmap_app, !fmap_cons, Hg'.
    reflexivity. }
  set (i1 := countb incremented l1) in *.
  set (i2 := countb incremented l2) in *.
  set (f1 := countb finished l1) in *.
  set (f2 := countb finished l2) in *.
  destruct g as [v [| id | id | id]]; unfold step; cbn [point value fst snd];
    unfold incremented, finished in *;
    cbn [point str IDCounter value] in *;
    (split; [apply Hvals; reflexivity |]);
    (split; [| split; [| split; [| split]]]);
    unfold keyed_by_id in *; cbn [str IDCounter].
  - (* the read of the counter *) exact Hkey.
  - exact Hcnt.
  - exact Hle.
  - exact Hpos.
  - exact Hfrom.
  - (* the increment *) exact Hkey.
  - rewrite Hcnt. unfold Int32.add. rewrite Int32_wrap_add_l.
    f_equal. lia.
  - exact Hle.
  - exact Hpos.
  - exact Hfrom.
  - (* the critical section *)
    intros k e He. destruct (decide (k = id)) as [-> | Hne].
    + rewrite lookup_insert_eq in He. injection He as <-. reflexivity.
    + rewrite lookup_insert_ne in He by congruence. exact (Hkey k e He).
  - exact Hcnt.
  - rewrite map_size_insert.
    destruct (str s !! id); unfold Datatypes.id; lia.
  - intros _. rewrite map_size_insert.
    destruct (str s !! id) eqn:Hid; unfold Datatypes.id; [| lia].
    destruct (Nat.eq_dec (size (str s)) 0) as [Hz | Hnz]; [| lia].
    apply map_size_empty_iff in Hz. rewrite Hz, lookup_empty in Hid.
    discriminate.
  - intros k e He. destruct (decide (k = id)) as [-> | Hne].
    + rewrite lookup_insert_eq in He. injection He as <-.
      exists v. split; [exact Hv | reflexivity].
    + rewrite lookup_insert_ne in He by congruence. exact (Hfrom k e He).
  - (* already returned *) exact Hkey.
  - exact Hcnt.
  - exact Hle.
  - exact Hpos.
  - exact Hfrom.
Qed.

Lemma load_invariant_run (values : list Result) (schedule : list nat) :
  load_invariant values (run schedule (start values New)).
Proof.
  apply (run_preserves (load_invariant values)).
  - intros c i. apply load_invariant_step.
  - apply load_invariant_start.
Qed.

Lemma keyed_ids_are_keys (m : gmap Z CacheStorageFormat) :
  (forall k e, m !! k = Some e -> csID e = k) ->
  csID <$> (map_to_list m).*2 = (map_to_list m).*1.
Proof.
  intros Hkey. rewrite <- list_fmap_compose.
  apply list_fmap_ext. intros i [k e] Hi. cbn.
  apply Hkey. apply elem_of_map_to_list.
  apply list_elem_of_lookup. exists i. exact Hi.
Qed.

(** Under every interleaving of any number of [Load] calls on a fresh
    store, at every point of the run: each entry is filed under its own ID
    and is made of the argument of one of the calls, and no result of
    [ReadAll] has two entries with the same ID. *)
Theorem concurrent_Load_entries (values : list Result) (schedule : list nat) :
  let c := run schedule (start values New) in
  keyed_by_id c.2
  /\ (forall k e,
        str c.2 !! k = Some e ->
        exists v, v ∈ values /\ e = cacheData_of k v)
  /\ forall out, ReadAll c.2 out -> NoDup (csID <$> out).
Proof.
  intros c. subst c.
  destruct (load_invariant_run values schedule)
    as (_ & Hkey & _ & _ & _ & Hfrom).
  split; [exact Hkey |]. split; [exact Hfrom |].
  intros out Hout. unfold ReadAll, ReadAll_canonical in Hout.
  rewrite Hout, (keyed_ids_are_keys _ Hkey).
  apply NoDup_fst_map_to_list.
Qed.

(** Under every interleaving, the counter is the number of calls that
    have run their increment (wrapped to [int32]); when all calls have
    returned it is the number of calls, which is what the second check of
    [TestConcurrentAccess] expects. *)
Theorem concurrent_Load_counter (values : list Result) (schedule : list nat) :
  let c := run schedule (start values New) in
  IDCounter c.2 = Int32.wrap (Z.of_nat (countb incremented c.1))
  /\ (all_finished c = true ->
      IDCounter c.2 = Int32.wrap (Z.of_nat (length values))).
Proof.
  intros c. subst c.
  destruct (load_invariant_run values schedule)
    as (Hval & _ & Hcnt & _ & _ & _).
  split; [exact Hcnt |].
  intros Hall. rewrite Hcnt. do 2 f_equal.
  pose proof (f_equal length Hval) as Hlen. rewrite length_fmap in Hlen.
  rewrite <- Hlen. apply countb_all.
  unfold all_finished in Hall.
  rewrite forallb_forall in Hall |- *. intros g Hg.
  specialize (Hall g Hg). unfold finished in Hall. unfold incremented.
  destruct (point g); try discriminate; reflexivity.
Qed.

Lemma concurrent_Load_counter_witness :
  IDCounter (run (lockstep 3)
               (start [sample_result; sample_result; sample_result] New)).2
  = 3.
Proof.
  refine (proj2 (concurrent_Load_counter
                   [sample_result; sample_result; sample_result]
                   (lockstep 3)) _).
  reflexivity.
Defined.

(** Under every interleaving, the store holds at most as many entries as
    calls have returned, hence never more than there are calls, and at
    least one entry as soon as one call has returned: [HasData] is then
    true. *)
Theorem concurrent_Load_entry_count (values : list Result)
    (schedule : list nat) :
  let c := run schedule (start values New) in
  (size (str c.2) <= countb finished c.1)%nat
  /\ (countb finished c.1 <= length values)%nat
  /\ ((0 < countb finished c.1)%nat -> HasData c.2 = true).
Proof.
  intros c. subst c.
  destruct (load_invariant_run values schedule)
    as (Hval & _ & _ & Hle & Hpos & _).
  split; [exact Hle |]. split.
  - pose proof (f_equal length Hval) as Hlen. rewrite length_fmap in Hlen.
    rewrite <- Hlen. apply countb_le_length.
  - intros Hfin. specialize (Hpos Hfin). unfold HasData.
    apply negb_true_iff, Nat.eqb_neq. lia.
Qed.

Lemma concurrent_Load_entry_count_witness :
  HasData (run [0; 0; 0]%nat (start [sample_result; sample_result] New)).2
  = true.
Proof.
  refine (proj2 (proj2 (concurrent_Load_entry_count
                          [sample_result; sample_result] [0; 0; 0]%nat)) _).
  vm_compute. lia.
Defined.

Lemma concurrent_Load_entries_witness :
  NoDup (csID <$> ReadAll_canonical
           (run (lockstep 2) (start [sample_result; sample_result] New)).2).
Proof.
  refine (proj2 (proj2 (concurrent_Load_entries
                          [sample_result; sample_result] (lockstep 2))) _ _).
  unfold ReadAll. reflexivity.
Defined.

(** The three steps of the call at position [length pre], run with no
    other goroutine in between, are one sequential [Load]. *)
Lemma run_three_steps (pre rest : list goroutine) (v : Result) (s : Storage) :
  run [length pre; length pre; length pre]
      (pre ++ call v :: rest, s)
  = (pre ++ {| value := v; point := Returned (IDCounter s) |} :: rest,
     Load v s).
Proof.
  assert (Hstep : forall g s0,
             schedule_step (pre ++ g :: rest, s0) (length pre)
             = (pre ++ (step g s0).1 :: rest, (step g s0).2)).
  { intros g s0. unfold schedule_step. cbn [fst snd].
    rewrite list_lookup_middle by reflexivity.
    destruct (step g s0) as [g' s']. cbn [fst snd]. f_equal.
    rewrite insert_app_r_alt by lia. rewrite Nat.sub_diag. reflexivity. }
  rewrite !run_cons, !Hstep. destruct s as [m c]. reflexivity.
Qed.

Lemma run_serial_from (values : list Result) (pre : list goroutine)
    (s : Storage) :
  run (flat_map (fun i => [i; i; i]%list) (seq (length pre) (length values)))
      (pre ++ (call <$> values), s)
  = (pre ++ returned_serial values s, load_all values s).
Proof.
  revert pre s. induction values as [| v values IH]; intros pre s.
  - reflexivity.
  - cbn [length seq flat_map fmap list_fmap returned_serial].
    change (list_fmap _ _ call values) with (call <$> values).
    change ([length pre; length pre; length pre] ++ ?l)
      with ([length pre; length pre; length pre] ++ l).
    rewrite run_app, run_three_steps.
    replace (S (length pre))
      with (length (pre ++ [{| value := v;
                               point := Returned (IDCounter s) |}]))
      by (rewrite length_app; cbn; lia).
    rewrite (cons_middle _ pre (call <$> values)), app_assoc.
    rewrite IH. rewrite <- app_assoc. reflexivity.
Qed.

(** When the goroutines run one after the other, each through its three
    steps before the next one starts, the store they leave is the store
    of the sequential calls, and each call has returned with the ID the
    sequential run gives it: the concurrent model contains the sequential
    one. *)
Theorem serial_schedule_is_sequential (values : list Result) (s : Storage) :
  run (serial (length values)) (start values s)
  = (returned_serial values s, load_all values s)
  /\ all_finished (run (serial (length values)) (start values s)) = true.
Proof.
  assert (Hrun : run (serial (length values)) (start values s)
                 = (returned_serial values s, load_all values s)).
  { exact (run_serial_from values [] s). }
  split; [exact Hrun |].
  rewrite Hrun. unfold all_finished; cbn [fst].
  clear Hrun. revert s. induction values as [| v values IH]; intros s.
  - reflexivity.
  - cbn [returned_serial forallb]. rewrite IH. reflexivity.
Qed.

(** * Further properties of the validators and the loan sum *)

(** Where five times the initial payment fits in [int32] (initial
    payments up to 429496729), the validator accepts exactly the pairs
    with [0 < initialPayment <= objectCost <= 5 * initialPayment]: a
    positive payment of at least a fifth of the cost and at most the
    cost. *)
Theorem initialPaymentValidator_twenty_percent (objectCost initialPayment : Z) :
  Int32.in_range (initialPayment * 5) ->
  initialPaymentValidator objectCost initialPayment = true
  <-> 0 < initialPayment <= objectCost /\ objectCost <= 5 * initialPayment.
Proof.
  intros Hr. rewrite (initialPaymentValidator_exact _ _ Hr). lia.
Qed.

Lemma initialPaymentValidator_twenty_percent_witness :
  initialPaymentValidator 5000000 1000000 = true.
Proof.
  refine (proj2 (initialPaymentValidator_twenty_percent 5000000 1000000 _) _).
  - vm_compute. split; discriminate.
  - lia.
Defined.

(** A negative initial payment is accepted exactly when it is at most the
    cost and the [int32] product [initialPayment * 5] is at least the
    cost, which happens only when that product has wrapped around: the
    validator has no test for the sign.  The pair (100, -500000000) is
    accepted. *)
Theorem initialPaymentValidator_negative (objectCost initialPayment : Z) :
  initialPayment < 0 ->
  (initialPaymentValidator objectCost initialPayment = true
   <-> initialPayment <= objectCost
       /\ objectCost <= Int32.mul initialPayment 5)
  /\ (initialPaymentValidator objectCost initialPayment = true ->
      ~ Int32.in_range (initialPayment * 5)).
Proof.
  intros Hneg.
  assert (Hiff : initialPaymentValidator objectCost initialPayment = true
                 <-> initialPayment <= objectCost
                     /\ objectCost <= Int32.mul initialPayment 5).
  { unfold initialPaymentValidator.
    destruct (Z.ltb_spec objectCost initialPayment);
      destruct (Z.eqb_spec objectCost 0);
      destruct (Z.eqb_spec initialPayment 0);
      destruct (Z.ltb_spec (Int32.mul initialPayment 5) objectCost);
      cbn [andb]; split; intros; try discriminate; try reflexivity; lia. }
  split; [exact Hiff |].
  intros Hacc Hr. apply Hiff in Hacc as [Hle Hmul].
  unfold Int32.mul in Hmul. rewrite (Int32_wrap_id _ Hr) in Hmul. lia.
Qed.

Lemma initialPaymentValidator_negative_witness :
  initialPaymentValidator 100 (-500000000) = true.
Proof.
  refine (proj2 (proj1 (initialPaymentValidator_negative 100 (-500000000) _))
                _).
  - reflexivity.
  - split; vm_compute; discriminate.
Defined.



(** * Exact integer arithmetic in [float64]

    The overpayment is computed in floating point from integers; while
    the numbers stay below 2^53 every step is exact. *)

Lemma shiftp_value (m : positive) (k : Z) :
  0 <= k -> Zpos (shiftp m k) = Zpos m * 2 ^ k.
Proof.
  intros Hk. destruct k as [| p | p]; [cbn; lia | | lia].
  apply iter_xO_value.
Qed.

Lemma shiftp_digits (m : positive) (k : Z) :
  0 <= k -> Zpos (digits2_pos (shiftp m k)) = Zpos (digits2_pos m) + k.
Proof.
  intros Hk. destruct k as [| p | p]; [cbn; lia | | lia].
  cbn [shiftp]. rewrite iter_xO_digits. lia.
Qed.

Lemma digits_le_53 (m : positive) :
  Zpos m < 2 ^ 53 -> Zpos (digits2_pos m) <= 53.
Proof.
  intros Hm. pose proof (digits2_pos_lower m) as Hlo.
  destruct (Z.le_gt_cases (Zpos (digits2_pos m)) 53) as [H | H]; [exact H |].
  exfalso.
  assert (2 ^ 53 <= 2 ^ (Zpos (digits2_pos m) - 1))
    by (apply Z.pow_le_mono_r; lia).
  lia.
Qed.

Lemma binary_round_canon (s : bool) (m : positive) :
  Zpos m < 2 ^ 53 -> binary_round prec emax s m 0 = canon s m.
Proof.
  intros Hm. rewrite (of_Z_pos s m Hm). unfold canon.
  pose proof (digits_le_53 m Hm) as Hd.
  destruct (53 - Zpos (digits2_pos m)) as [| k | k] eqn:Hk; try lia.
  - cbn [shiftp]. f_equal. lia.
  - cbn [shiftp]. f_equal. lia.
Qed.

Lemma exact_int_of_Z (z : Z) : Z.abs z < 2 ^ 53 -> exact_int (of_Z z) z.
Proof.
  intros Hz. destruct z as [| m | m]; cbn [exact_int].
  - exists false. reflexivity.
  - apply binary_round_canon. lia.
  - apply binary_round_canon. lia.
Qed.

Lemma iter_pos_is_iter {A : Type} (f : A -> A) (p : positive) (x : A) :
  iter_pos f p x = Pos.iter f x p.
Proof.
  revert x. induction p as [p IH | p IH |]; intros x; cbn [iter_pos Pos.iter].
  - rewrite !IH, !Pos.iter_swap. reflexivity.
  - rewrite !IH. reflexivity.
  - reflexivity.
Qed.

(** Shifting out digits that are all zero is exact. *)
Lemma shr_zeros (p m : positive) :
  iter_pos shr_1 p
    {| shr_m := Zpos (Pos.iter xO m p); shr_r := false; shr_s := false |}
  = {| shr_m := Zpos m; shr_r := false; shr_s := false |}.
Proof.
  rewrite iter_pos_is_iter.
  induction p as [| p IH] using Pos.peano_ind.
  - reflexivity.
  - rewrite !Pos.iter_succ, <- Pos.iter_swap.
    cbn [shr_1 orb]. exact IH.
Qed.

(** Rounding a mantissa of at least 53 digits that stands for an integer
    below 2^53 gives the float of that integer. *)
Lemma binary_round_aux_exact (s : bool) (M V : positive) (e : Z) :
  e <= 0 ->
  Zpos M = Zpos V * 2 ^ (- e) ->
  Zpos V < 2 ^ 53 ->
  53 <= Zpos (digits2_pos M) ->
  -1074 <= e ->
  binary_round_aux prec emax s (Zpos M) e loc_Exact = canon s V.
Proof.
  intros He HM HV HdM Hemin.
  pose proof (digits_le_53 V HV) as HdV.
  set (d := Zpos (digits2_pos V)) in *.
  assert (HMV : M = shiftp V (- e)).
  { apply Pos2Z.inj. rewrite shiftp_value by lia. exact HM. }
  assert (HdMV : Zpos (digits2_pos M) = d + - e).
  { rewrite HMV, shiftp_digits by lia. reflexivity. }
  destruct (Z.eq_dec (d + - e) 53) as [Heq | Hne].
  - rewrite binary_round_aux_canonical by lia.
    unfold canon. fold d. rewrite HMV. f_equal; [f_equal; lia | lia].
  - assert (Hn : 0 < d - 53 - e) by lia.
    destruct (d - 53 - e) as [| p | p] eqn:Hp; try lia.
    set (M' := shiftp V (53 - d)).
    assert (HM' : M = Pos.iter xO M' p).
    { apply Pos2Z.inj. rewrite iter_xO_value. unfold M'.
      rewrite shiftp_value by lia. rewrite HM.
      rewrite <- Z.mul_assoc, <- Z.pow_add_r by lia.
      do 2 f_equal. lia. }
    assert (Hf1 : fexp prec emax (Zdigits2 (Zpos M) + e) - e = Zpos p).
    { unfold fexp, emin, prec, emax. cbn [Zdigits2]. rewrite HdMV. lia. }
    assert (HdM' : Zpos (digits2_pos M') = 53).
    { unfold M'. rewrite shiftp_digits by lia. fold d. lia. }
    assert (Hf2 : fexp prec emax (Zdigits2 (Zpos M') + (e + Zpos p))
                  - (e + Zpos p) = 0).
    { unfold fexp, emin, prec, emax. cbn [Zdigits2]. rewrite HdM'. lia. }
    unfold binary_round_aux, shr_fexp.
    rewrite Hf1. cbn [shr shr_record_of_loc].
    rewrite HM', shr_zeros.
    cbn [shr_m loc_of_shr_record round_nearest_even].
    rewrite Hf2. cbn [shr shr_m shr_record_of_loc].
    replace (e + Zpos p <=? emax - prec) with true
      by (symmetry; apply Z.leb_le; unfold emax, prec; lia).
    unfold canon. fold d. fold M'. f_equal. lia.
Qed.

(** Rounding any mantissa that stands for an integer below 2^53. *)
Lemma binary_round_exact (s : bool) (M V : positive) (e : Z) :
  e <= 0 ->
  Zpos M = Zpos V * 2 ^ (- e) ->
  Zpos V < 2 ^ 53 ->
  -1074 <= e ->
  binary_round prec emax s M e = canon s V.
Proof.
  intros He HM HV Hemin.
  pose proof (digits_le_53 V HV) as HdV.
  set (d := Zpos (digits2_pos V)) in *.
  assert (HMV : M = shiftp V (- e)).
  { apply Pos2Z.inj. rewrite shiftp_value by lia. exact HM. }
  assert (HdMV : Zpos (digits2_pos M) = d + - e).
  { rewrite HMV, shiftp_digits by lia. reflexivity. }
  unfold binary_round, shl_align.
  assert (Hf : fexp prec emax (Zpos (digits2_pos M) + e) = d - 53).
  { unfold fexp, emin, prec, emax. rewrite HdMV. lia. }
  rewrite Hf.
  destruct (d - 53 - e) as [| p | p] eqn:Hp.
  - apply binary_round_aux_exact; try assumption. lia.
  - apply binary_round_aux_exact; try assumption. lia.
  - assert (Hsh : Pos.iter xO M p = shiftp V (53 - d)).
    { apply Pos2Z.inj. rewrite iter_xO_value, shiftp_value by lia.
      rewrite HM, <- Z.mul_assoc, <- Z.pow_add_r by lia.
      do 2 f_equal. lia. }
    rewrite Hsh. rewrite binary_round_aux_canonical.
    + unfold canon. fold d. reflexivity.
    + rewrite shiftp_digits by lia. fold d. lia.
    + lia.
Qed.

Lemma canon_bounds (m : positive) :
  Zpos m < 2 ^ 53 ->
  0 <= 53 - Zpos (digits2_pos m) /\ Zpos (digits2_pos m) - 53 <= 0
  /\ -52 <= Zpos (digits2_pos m) - 53.
Proof.
  intros Hm. pose proof (digits_le_53 m Hm).
  pose proof (Pos2Z.is_pos (digits2_pos m)). lia.
Qed.

Lemma digits_mono (a b : positive) :
  (a <= b)%positive -> Zpos (digits2_pos a) <= Zpos (digits2_pos b).
Proof.
  intros Hab.
  pose proof (digits2_pos_lower a) as Hla.
  pose proof (digits2_pos_upper b) as Hub.
  assert (Hlt : 2 ^ (Zpos (digits2_pos a) - 1) < 2 ^ Zpos (digits2_pos b))
    by lia.
  apply Z.pow_lt_mono_r_iff in Hlt; lia.
Qed.

(** The product of two floats that stand for integers stands for the
    product of the integers, if that is below 2^53. *)
Lemma mul_exact (x y : float64) (a b : Z) :
  exact_int x a -> exact_int y b -> Z.abs (a * b) < 2 ^ 53 ->
  exact_int (mul x y) (a * b).
Proof.
  intros Hx Hy Hab.
  assert (Hfin : forall sa sb (ma mb : positive),
             Zpos (ma * mb) < 2 ^ 53 ->
             mul (canon sa ma) (canon sb mb) = canon (xorb sa sb) (ma * mb)).
  { intros sa sb ma mb Hm.
    assert (Hma : Zpos ma < 2 ^ 53) by nia.
    assert (Hmb : Zpos mb < 2 ^ 53) by nia.
    pose proof (canon_bounds ma Hma) as (Ha1 & Ha2 & Ha3).
    pose proof (canon_bounds mb Hmb) as (Hb1 & Hb2 & Hb3).
    unfold mul, canon at 1 2. cbn [SFmul].
    assert (HM : Zpos (shiftp ma (53 - Zpos (digits2_pos ma))
                       * shiftp mb (53 - Zpos (digits2_pos mb)))
                 = Zpos (ma * mb)
                   * 2 ^ (- (Zpos (digits2_pos ma) - 53
                             + (Zpos (digits2_pos mb) - 53)))).
    { rewrite !Pos2Z.inj_mul, !shiftp_value by lia.
      replace (- (Zpos (digits2_pos ma) - 53 + (Zpos (digits2_pos mb) - 53)))
        with ((53 - Zpos (digits2_pos ma)) + (53 - Zpos (digits2_pos mb)))
        by lia.
      rewrite Z.pow_add_r by lia. ring. }
    apply binary_round_aux_exact; try lia; try assumption.
    assert (HMV : (shiftp ma (53 - Zpos (digits2_pos ma))
                   * shiftp mb (53 - Zpos (digits2_pos mb)))%positive
                  = shiftp (ma * mb)
                      (- (Zpos (digits2_pos ma) - 53
                          + (Zpos (digits2_pos mb) - 53)))).
    { apply Pos2Z.inj. rewrite HM, shiftp_value by lia. reflexivity. }
    rewrite HMV, shiftp_digits by lia.
    assert (Zpos (digits2_pos ma) <= Zpos (digits2_pos (ma * mb)))
      by (apply digits_mono; nia).
    lia. }
  destruct a as [| ma | ma], b as [| mb | mb]; cbn [exact_int Z.mul] in *.
  - destruct Hx as [sx ->], Hy as [sy ->]. eexists; reflexivity.
  - destruct Hx as [sx ->]. subst y. eexists; reflexivity.
  - destruct Hx as [sx ->]. subst y. eexists; reflexivity.
  - destruct Hy as [sy ->]. subst x. eexists; reflexivity.
  - subst x y. rewrite Hfin by lia. reflexivity.
  - subst x y. rewrite Hfin by lia. reflexivity.
  - destruct Hy as [sy ->]. subst x. eexists; reflexivity.
  - subst x y. rewrite Hfin by lia. reflexivity.
  - subst x y. rewrite Hfin by lia. reflexivity.
Qed.

Lemma shl_align_value (mx : positive) (ex ez : Z) :
  ez <= ex -> Zpos (fst (shl_align mx ex ez)) = Zpos mx * 2 ^ (ex - ez).
Proof.
  intros Hle. unfold shl_align.
  destruct (ez - ex) as [| d | d] eqn:Hd; try lia.
  - replace (ex - ez) with 0 by lia. cbn [fst]. lia.
  - cbn [fst]. rewrite iter_xO_value. do 2 f_equal. lia.
Qed.

(** The mantissa of the float of an integer, aligned to a lower
    exponent. *)
Lemma canon_aligned (s : bool) (m : positive) (ez : Z) :
  Zpos m < 2 ^ 53 ->
  ez <= Zpos (digits2_pos m) - 53 ->
  cond_Zopp s
    (Zpos (fst (shl_align (shiftp m (53 - Zpos (digits2_pos m)))
                          (Zpos (digits2_pos m) - 53) ez)))
  = signed_mantissa s m * 2 ^ (- ez).
Proof.
  intros Hm Hez. pose proof (canon_bounds m Hm) as (H1 & H2 & H3).
  rewrite shl_align_value by lia. rewrite shiftp_value by lia.
  rewrite <- Z.mul_assoc, <- Z.pow_add_r by lia.
  replace (53 - Zpos (digits2_pos m) + (Zpos (digits2_pos m) - 53 - ez))
    with (- ez) by lia.
  destruct s; cbn [cond_Zopp signed_mantissa]; lia.
Qed.

Lemma exact_int_signed (s : bool) (m : positive) :
  exact_int (canon s m) (signed_mantissa s m).
Proof. destruct s; reflexivity. Qed.

Lemma exact_int_canon (x : float64) (z : Z) :
  z <> 0 -> exact_int x z ->
  x = canon (z <? 0) (Z.to_pos (Z.abs z))
  /\ z = signed_mantissa (z <? 0) (Z.to_pos (Z.abs z)).
Proof.
  intros Hz Hx. destruct z as [| m | m]; [contradiction | |];
    cbn [exact_int] in Hx; subst x; split; reflexivity.
Qed.

(** The difference of two floats that stand for integers stands for the
    difference of the integers, if all three are below 2^53. *)
Lemma sub_exact (x y : float64) (a b : Z) :
  exact_int x a -> exact_int y b ->
  Z.abs a < 2 ^ 53 -> Z.abs b < 2 ^ 53 -> Z.abs (a - b) < 2 ^ 53 ->
  exact_int (sub x y) (a - b).
Proof.
  intros Hx Hy Ha Hb Hab.
  destruct (Z.eq_dec a 0) as [-> | Ha0]; destruct (Z.eq_dec b 0) as [-> | Hb0].
  - destruct Hx as [sx ->], Hy as [sy ->]. cbn.
    destruct sx, sy; eexists; reflexivity.
  - destruct Hx as [sx ->].
    destruct b as [| mb | mb]; [contradiction | |];
      cbn [exact_int] in Hy; subst y; reflexivity.
  - destruct Hy as [sy ->]. rewrite Z.sub_0_r.
    destruct a as [| ma | ma]; [contradiction | |];
      cbn [exact_int] in Hx; subst x; reflexivity.
  - apply (exact_int_canon _ _ Ha0) in Hx as [-> Hza].
    apply (exact_int_canon _ _ Hb0) in Hy as [-> Hzb].
    set (sa := a <? 0) in *. set (ma := Z.to_pos (Z.abs a)) in *.
    set (sb := b <? 0) in *. set (mb := Z.to_pos (Z.abs b)) in *.
    assert (Hma : Zpos ma < 2 ^ 53) by (subst ma; lia).
    assert (Hmb : Zpos mb < 2 ^ 53) by (subst mb; lia).
    pose proof (canon_bounds ma Hma) as (Ha1 & Ha2 & Ha3).
    pose proof (canon_bounds mb Hmb) as (Hb1 & Hb2 & Hb3).
    unfold sub, canon. cbn [SFsub].
    set (ez := Z.min (Zpos (digits2_pos ma) - 53) (Zpos (digits2_pos mb) - 53)).
    rewrite (canon_aligned sa ma ez Hma) by (subst ez; lia).
    rewrite (canon_aligned sb mb ez Hmb) by (subst ez; lia).
    rewrite <- Hza, <- Hzb, <- Z.mul_sub_distr_r.
    assert (Hez : -52 <= ez <= 0) by (subst ez; lia).
    assert (Hp : 0 < 2 ^ (- ez)) by (apply Z.pow_pos_nonneg; lia).
    destruct (a - b) as [| V | V] eqn:HV.
    + cbn. exists false. reflexivity.
    + cbn [exact_int].
      destruct (Zpos V * 2 ^ (- ez)) as [| M | M] eqn:HM; try lia.
      cbn [binary_normalize].
      apply binary_round_exact; try lia.
    + cbn [exact_int].
      destruct (Zneg V * 2 ^ (- ez)) as [| M | M] eqn:HM; try lia.
      cbn [binary_normalize].
      apply binary_round_exact; try lia.
Qed.

Lemma is_ceiling_exact (x : float64) (z : Z) :
  exact_int x z -> Z.abs z < 2 ^ 53 -> is_ceiling x z = true.
Proof.
  intros Hx Hz.
  destruct (Z.eq_dec z 0) as [-> | Hz0].
  - destruct Hx as [s ->]. reflexivity.
  - apply (exact_int_canon _ _ Hz0) in Hx as [-> Hzs].
    set (s := z <? 0) in *. set (m := Z.to_pos (Z.abs z)) in *.
    assert (Hm : Zpos m < 2 ^ 53) by (subst m; lia).
    pose proof (canon_bounds m Hm) as (H1 & H2 & H3).
    assert (Hval : signed_mantissa s (shiftp m (53 - Zpos (digits2_pos m)))
                   = z * 2 ^ (53 - Zpos (digits2_pos m))).
    { clearbody s m. rewrite Hzs. destruct s; cbn [signed_mantissa].
      - change (Zneg ?p) with (- Zpos p).
        rewrite shiftp_value by lia. lia.
      - rewrite shiftp_value by lia. reflexivity. }
    unfold canon, is_ceiling. cbv zeta. rewrite Hval.
    assert (Hp : 0 < 2 ^ (53 - Zpos (digits2_pos m)))
      by (apply Z.pow_pos_nonneg; lia).
    destruct (Z.leb_spec 0 (Zpos (digits2_pos m) - 53)) as [Hge | Hlt].
    + replace (53 - Zpos (digits2_pos m)) with 0 by lia.
      replace (Zpos (digits2_pos m) - 53) with 0 by lia.
      apply Z.eqb_eq. cbn. lia.
    + replace (- (Zpos (digits2_pos m) - 53))
        with (53 - Zpos (digits2_pos m)) by lia.
      apply andb_true_iff. split; [apply Z.ltb_lt | apply Z.leb_le]; nia.
Qed.

(** The overpayment of the calculator for a principal that is an
    integer: the payment times the term, less the principal. *)
Lemma overpayment_float_exact (L mp n : Z) :
  Z.abs L < 2 ^ 53 -> Z.abs mp < 2 ^ 53 -> Z.abs n < 2 ^ 53 ->
  Z.abs (mp * n) < 2 ^ 53 -> Int32.in_range (mp * n - L) ->
  to_int32 (overpayment_float (of_Z L) mp n) = mp * n - L.
Proof.
  intros HL Hmp Hn Hprod Hr. unfold overpayment_float.
  apply to_int32_Ceil; [| exact Hr].
  apply is_ceiling_exact; [| apply int32_below_2_53; exact Hr].
  apply sub_exact; try assumption.
  - apply mul_exact; [apply exact_int_of_Z | apply exact_int_of_Z |];
      assumption.
  - apply exact_int_of_Z. exact HL.
  - apply int32_below_2_53. exact Hr.
Qed.

(** For a principal that is an integer (as the loan sum that [Execute]
    passes is), the overpayment returned by the calculator is exactly the
    monthly payment times the number of months, less the principal, as
    long as the product is below 2^53 and the difference is an [int32]:
    the floating-point steps after the first rounding up lose nothing. *)
Theorem overpayment_is_total_less_principal (L : Z) (r : float64) (n : Z) :
  let mp := fst (monthlyPaymentCalculator (of_Z L) r n) in
  Z.abs L < 2 ^ 53 -> Z.abs n < 2 ^ 53 ->
  Z.abs (mp * n) < 2 ^ 53 -> Int32.in_range (mp * n - L) ->
  snd (monthlyPaymentCalculator (of_Z L) r n) = mp * n - L.
Proof.
  intros mp HL Hn Hprod Hr.
  change (snd (monthlyPaymentCalculator (of_Z L) r n))
    with (to_int32 (overpayment_float (of_Z L) mp n)).
  apply overpayment_float_exact; try assumption.
  apply int32_below_2_53. apply to_int32_is_int32.
Qed.

Lemma overpayment_is_total_less_principal_witness :
  snd (monthlyPaymentCalculator (of_Z 4000000) (of_Z 8) 240)
  = fst (monthlyPaymentCalculator (of_Z 4000000) (of_Z 8) 240) * 240
    - 4000000.
Proof.
  apply (overpayment_is_total_less_principal 4000000 (of_Z 8) 240).
  - vm_compute. reflexivity.
  - vm_compute. reflexivity.
  - vm_compute. reflexivity.
  - vm_compute. split; discriminate.
Defined.

(** In every result that [Execute] returns for an accepted request, the
    overpayment is the monthly payment times the months of the request,
    less the loan sum, as long as the product is below 2^53 and the
    difference is an [int32]. *)
Theorem Execute_overpayment (now : Time.Date) (s : Storage)
    (reqData : ExecuteReqeust) :
  initialPaymentValidator (reqObjectCost reqData) (reqInitialPayment reqData)
    = true ->
  selected_count (reqProgram reqData) = 1%nat ->
  Z.abs (reqMonths reqData) < 2 ^ 53 ->
  exists resp,
    response (Execute now s (post reqData))
    = {| StatusCode := Some StatusOK; Written := Some (ExecutePayload resp) |}
    /\ let a := resAggregates (respResult resp) in
       (Z.abs (MonthlyPayment a * reqMonths reqData) < 2 ^ 53 ->
        Int32.in_range (MonthlyPayment a * reqMonths reqData - LoanSum a) ->
        Overpayment a = MonthlyPayment a * reqMonths reqData - LoanSum a).
Proof.
  intros Hpay Hone Hmonths.
  assert (Hprog : programValidator reqData
                  = (fst (programValidator reqData), None)).
  { destruct (programValidator_cases reqData)
      as [[H0 _] | [[H2 _] | [_ Hnone]]]; [lia | lia |].
    destruct (programValidator reqData) as [name e].
    cbn in Hnone |- *. subst e. reflexivity. }
  destruct (Execute_accepted now s reqData _ Hpay Hprog) as (Hresp & _ & _).
  eexists. split; [exact Hresp |].
  unfold assembled, prepareResponse.
  cbn [respResult resAggregates MonthlyPayment Overpayment LoanSum].
  intros Hprod Hr.
  apply overpayment_float_exact; try assumption.
  - apply int32_below_2_53. apply Int32_wrap_in_range.
  - apply int32_below_2_53. apply to_int32_is_int32.
Qed.

Lemma Execute_overpayment_witness :
  exists resp,
    response (Execute {| Time.year := 2024; Time.month := 2; Time.day := 18 |}
                New (post example_request))
    = {| StatusCode := Some StatusOK; Written := Some (ExecutePayload resp) |}
    /\ Overpayment (resAggregates (respResult resp))
       = MonthlyPayment (resAggregates (respResult resp)) * 12
         - LoanSum (resAggregates (respResult resp)).
Proof.
  destruct (Execute_overpayment
              {| Time.year := 2024; Time.month := 2; Time.day := 18 |}
              New example_request eq_refl eq_refl eq_refl)
    as (resp & Hresp & Hover).
  exists resp. split; [exact Hresp |].
  injection Hresp as <-.
  apply Hover.
  - vm_compute. reflexivity.
  - vm_compute. split; discriminate.
Defined.

(** * Further properties of [ReadAll], of the counter and of a zero rate *)

(** Whatever the store, a result of [ReadAll] has one element per entry
    of the map: its length is the number of entries, and an entry is in
    it exactly when the map holds it under some ID. *)
Theorem ReadAll_complete (s : Storage) (out : list CacheStorageFormat) :
  ReadAll s out ->
  length out = size (str s)
  /\ forall e, e ∈ out <-> exists k, str s !! k = Some e.
Proof.
  intros Hout. split; [apply ReadAll_length; exact Hout |].
  intros e. unfold ReadAll, ReadAll_canonical in Hout. rewrite Hout.
  rewrite list_elem_of_fmap. split.
  - intros [[k e'] [-> Hin]]. exists k.
    apply elem_of_map_to_list. exact Hin.
  - intros [k Hk]. exists (k, e). split; [reflexivity |].
    apply elem_of_map_to_list. exact Hk.
Qed.

Lemma ReadAll_complete_witness :
  length (ReadAll_canonical (load_all [sample_result; sample_result] New))
  = 2%nat.
Proof.
  rewrite (proj1 (ReadAll_complete
                    (load_all [sample_result; sample_result] New)
                    (ReadAll_canonical
                       (load_all [sample_result; sample_result] New))
                    (Permutation_refl _))).
  reflexivity.
Defined.

Lemma Int32_wrap_inj (a d : Z) :
  0 <= d < Int32.modulus -> Int32.wrap a = Int32.wrap (a + d) -> d = 0.
Proof.
  unfold Int32.wrap, Int32.modulus, Int32.min_int. intros Hd Heq.
  pose proof (Z.div_mod (a - -2147483648) 4294967296 ltac:(lia)) as H1.
  pose proof (Z.div_mod (a + d - -2147483648) 4294967296 ltac:(lia)) as H2.
  pose proof (Z.mod_pos_bound (a - -2147483648) 4294967296 ltac:(lia)) as H3.
  assert (Hr : (a + d - -2147483648) mod 4294967296
               = (a - -2147483648) mod 4294967296) by lia.
  rewrite Hr in H2. nia.
Qed.

(** Sequential calls on any store whose counter is an [int32]: the IDs
    handed out are consecutive from the counter, modulo 2^32; the counter
    ends at its start plus the number of calls, wrapped; and the value of
    every call that is followed by fewer than 2^32 further calls is still
    in the store under its ID (an entry is overwritten only when the
    counter has come round to its ID again). *)
Theorem load_all_consecutive_ids (values : list Result) (s : Storage) :
  Int32.in_range (IDCounter s) ->
  IDCounter (load_all values s)
  = Int32.wrap (IDCounter s + Z.of_nat (length values))
  /\ forall (i : nat) v,
      values !! i = Some v ->
      Z.of_nat (length values) - Z.of_nat i <= Int32.modulus ->
      str (load_all values s) !! Int32.wrap (IDCounter s + Z.of_nat i)
      = Some (cacheData_of (Int32.wrap (IDCounter s + Z.of_nat i)) v).
Proof.
  intros Hc. induction values as [| w values IH] using rev_ind.
  - split.
    + cbn. rewrite Z.add_0_r. symmetry. apply Int32_wrap_id. exact Hc.
    + intros i v Hi. rewrite lookup_nil in Hi. discriminate.
  - destruct IH as [IHc IHl].
    rewrite load_all_snoc. unfold Load; cbn [str IDCounter].
    rewrite IHc. split.
    + unfold Int32.add. rewrite Int32_wrap_add_l. f_equal.
      rewrite length_app, Nat2Z.inj_add. cbn [length]. lia.
    + intros i v Hi Hlate.
      rewrite length_app, Nat2Z.inj_add in Hlate. cbn [length] in Hlate.
      pose proof (lookup_lt_Some _ _ _ Hi) as Hlt.
      rewrite length_app in Hlt. cbn [length] in Hlt.
      destruct (decide (i = length values)) as [-> | Hne].
      * rewrite list_lookup_middle in Hi by reflexivity.
        injection Hi as <-. apply lookup_insert_eq.
      * rewrite lookup_app_l in Hi by lia.
        rewrite lookup_insert_ne.
        -- apply IHl; [exact Hi | lia].
        -- intros Heq. symmetry in Heq.
           replace (IDCounter s + Z.of_nat (length values))
             with (IDCounter s + Z.of_nat i
                   + (Z.of_nat (length values) - Z.of_nat i)) in Heq by lia.
           apply Int32_wrap_inj in Heq; [lia |].
           unfold Int32.modulus in *. lia.
Qed.

Lemma load_all_consecutive_ids_witness :
  IDCounter (load_all [sample_result; sample_result]
               {| str := ∅; IDCounter := 2147483647 |})
  = -2147483647.
Proof.
  assert (Hc : Int32.in_range
                 (IDCounter {| str := ∅; IDCounter := 2147483647 |})).
  { vm_compute. split; discriminate. }
  rewrite (proj1 (load_all_consecutive_ids [sample_result; sample_result]
                    {| str := ∅; IDCounter := 2147483647 |} Hc)).
  reflexivity.
Defined.

(** With a program name other than base, military and salary the rate
    is zero and the calculator finds no payment: the factor is one for
    every term, the formula divides zero by zero, and for every principal
    the quotient handed to the conversion is NaN. *)
Theorem zero_rate_gives_no_payment (loanProgram : string)
    (objectCost : float64) (months : Z) :
  loanProgram <> "base"%string ->
  loanProgram <> "military"%string ->
  loanProgram <> "salary"%string ->
  getLoanRateAndProgram loanProgram = (0, emptyProgram)
  /\ factor_of (of_Z (fst (getLoanRateAndProgram loanProgram))) months = one
  /\ monthlyPayment_float objectCost
       (of_Z (fst (getLoanRateAndProgram loanProgram))) months = nan.
Proof.
  intros Hb Hm Hs.
  assert (Hrate : getLoanRateAndProgram loanProgram = (0, emptyProgram)).
  { unfold getLoanRateAndProgram.
    destruct (String.eqb_spec loanProgram "base"); [contradiction |].
    destruct (String.eqb_spec loanProgram "military"); [contradiction |].
    destruct (String.eqb_spec loanProgram "salary"); [contradiction |].
    reflexivity. }
  assert (Hf : factor_of (of_Z 0) months = one).
  { unfold factor_of.
    change (add one (monthlyRate_of (of_Z 0))) with one.
    unfold Pow. change (eqb one one) with true.
    rewrite orb_true_r. reflexivity. }
  rewrite Hrate. cbn [fst].
  split; [reflexivity |]. split; [exact Hf |].
  unfold monthlyPayment_float. rewrite Hf.
  change (mul (monthlyRate_of (of_Z 0)) one) with (S754_zero false).
  change (sub one one) with (S754_zero false).
  destruct objectCost as [[] | [] | | [] m e]; reflexivity.
Qed.

Lemma zero_rate_gives_no_payment_witness :
  monthlyPayment_float (of_Z 80000)
    (of_Z (fst (getLoanRateAndProgram "unknown"))) 12 = nan.
Proof.
  refine (proj2 (proj2 (zero_rate_gives_no_payment "unknown" (of_Z 80000) 12
                          _ _ _))); discriminate.
Defined.

(** * The status code in the request log *)

(** The code that the middleware logs for a request to [Execute] is 200,
    400 or 405, and it is the code sent to the client whenever a header
    was written.  For a POST whose body does not decode the handler
    returns without writing a header: 200 is logged although no header
    was sent, nothing was written and nothing was stored. *)
Theorem logged_status_of_Execute (now : Time.Date) (s : Storage)
    (r : HttpRequest) :
  let o := Execute now s r in
  let rw := Middleware.RequestInfoMiddleware
              (Middleware.write_status (response o)) in
  In (Middleware.statusCode rw) [200; 400; 405]
  /\ (forall code, Middleware.ResponseWriter rw = Some code ->
                   Middleware.statusCode rw = code
                   /\ StatusCode (response o) = Some code)
  /\ (Method r = "POST"%string -> DecodedBody r = None ->
      Middleware.statusCode rw = 200
      /\ Middleware.ResponseWriter rw = None
      /\ Written (response o) = None
      /\ store o = s).
Proof.
  intros o rw. subst o rw. destruct r as [method body]. cbn [Method DecodedBody].
  unfold Middleware.RequestInfoMiddleware, Middleware.write_status.
  unfold Execute. cbn [Method DecodedBody].
  destruct (String.eqb_spec method "POST") as [-> | Hm]; cbn [negb].
  - destruct body as [reqData |].
    + destruct (initialPaymentValidator _ _); cbn [negb].
      * destruct (programValidator reqData) as [name [err |]].
        -- cbn. split; [auto |]. split; [| discriminate].
           intros code [= <-]. split; reflexivity.
        -- destruct (getLoanRateAndProgram name) as [rate program].
           destruct (monthlyPaymentCalculator _ _ _) as [mp op].
           cbn. split; [auto |]. split; [| discriminate].
           intros code [= <-]. split; reflexivity.
      * cbn. split; [auto |]. split; [| discriminate].
        intros code [= <-]. split; reflexivity.
    + cbn. split; [auto |]. split; [discriminate |].
      intros _ _. repeat split.
  - cbn. split; [auto |]. split; [| intros Habs; contradiction].
    intros code [= <-]. split; reflexivity.
Qed.

Lemma logged_status_of_Execute_witness :
  Middleware.statusCode
    (Middleware.RequestInfoMiddleware
       (Middleware.write_status
          (response (Execute {| Time.year := 2024; Time.month := 2;
                                Time.day := 18 |} New
                       {| Method := "POST"; DecodedBody := None |}))))
  = 200.
Proof.
  exact (proj1 (proj2 (proj2 (logged_status_of_Execute
    {| Time.year := 2024; Time.month := 2; Time.day := 18 |} New
    {| Method := "POST"; DecodedBody := None |})) eq_refl eq_refl)).
Defined.
